(** * read_scenario.py: the HDF5 contingency-analysis reader

    A shallow embedding of [src/gridpack_integration/read_scenario.py]
    (the structure walker [print_structure], the path reader
    [read_element], the summarizer [read_scenario] and the dispatcher
    [main]) together with the properties of its specification.

    Conventions of the embedding.
    - The HDF5 container is a tree of groups and datasets, with links
      that lead to no object as leaves; h5py and HDF5 are external
      libraries, modelled after their behaviour: paths (components
      separated by '/', empty and '.' components ignored, the empty path
      invalid), the membership test, iteration in name order.
    - Stored floating-point numbers are IEEE 754 binary64 values, Rocq's
      primitive floats: sums are numpy's pairwise sums, differences and
      comparisons are those of binary64, and a number is printed from its
      exact binary value, as Python does.
    - [print] is an effect: every function runs in a monad that records
      the lines printed and the container accesses made, in order, and
      both survive a raised exception, as they do in Python. *)

From Stdlib Require Import String Ascii List ZArith QArith Lia Bool Sorted.
From Stdlib Require Import DecimalString DecimalNat Floats.
Import ListNotations.

Set Warnings "-inexact-float".

Local Open Scope list_scope.
Local Open Scope string_scope.

(** ** Text formatting (the format specifications used by the f-strings) *)

Module Fmt.

(** [str(n)] for a natural number. *)
Definition str_nat (n : nat) : string :=
  NilZero.string_of_uint (Nat.to_uint n).

(** [str(z)] for an integer. *)
Definition str_Z (z : Z) : string :=
  NilZero.string_of_int (Z.to_int z).

(** [c * n] for a one-character string. *)
Fixpoint repeat_char (c : ascii) (n : nat) : string :=
  match n with
  | O => EmptyString
  | S k => String c (repeat_char c k)
  end.

(** [{s:>w}]: right-aligned in a field of width [w]. *)
Definition rjust (w : nat) (s : string) : string :=
  repeat_char " " (w - String.length s) ++ s.

(** A continuation byte of UTF-8: [10xxxxxx]. *)
Definition is_continuation (c : ascii) : bool :=
  match c with
  | Ascii _ _ _ _ _ _ b6 b7 => b7 && negb b6
  end.

(** [len(s)] for text held as UTF-8: the number of its code points. *)
Fixpoint char_count (s : string) : nat :=
  match s with
  | EmptyString => O
  | String c s' => (if is_continuation c then 0 else 1) + char_count s'
  end.

(** [{s:<w}]: left-aligned in a field of [w] characters. *)
Definition ljust (w : nat) (s : string) : string :=
  s ++ repeat_char " " (w - char_count s).

(** [{n:06d}] for a non-negative integer. *)
Definition zfill6 (n : nat) : string :=
  let s := str_nat n in repeat_char "0" (6 - String.length s) ++ s.

(** The magnitude of [q] scaled by [10^prec] and rounded to the nearest
    integer, ties to even: the digits Python prints for [{x:.<prec>f}]
    when [q] is the exact value of [x]. *)
Definition round_half_even (prec : nat) (q : Q) : Z :=
  let num := (Z.abs (Qnum q) * 10 ^ Z.of_nat prec)%Z in
  let den := Z.pos (Qden q) in
  let fl := (num / den)%Z in
  let r := (num mod den)%Z in
  match (2 * r ?= den)%Z with
  | Lt => fl
  | Gt => (fl + 1)%Z
  | Eq => if Z.even fl then fl else (fl + 1)%Z
  end.

(** The unsigned text [int.frac] with exactly [prec] decimals. *)
Definition digits_f (prec : nat) (q : Q) : string :=
  let m := round_half_even prec q in
  let scale := (10 ^ Z.of_nat prec)%Z in
  let ip := str_Z (m / scale) in
  match prec with
  | O => ip
  | _ => let fs := str_Z (m mod scale) in
         ip ++ "." ++ repeat_char "0" (prec - String.length fs) ++ fs
  end.

(** The exact value [m * 2^e] of a finite binary64 number. *)
Definition exact (m : positive) (e : Z) : Q :=
  match e with
  | Zneg p => Z.pos m # (2 ^ p)
  | _ => (Z.pos m * 2 ^ e) # 1
  end.

(** A float under a fixed-point format: the sign, then [nan], [inf] or
    the digits of the exact value. *)
Definition fmt_signed (sign : bool -> string) (prec : nat) (x : float)
  : string :=
  match Prim2SF x with
  | S754_nan => sign false ++ "nan"
  | S754_infinity s => sign s ++ "inf"
  | S754_zero s => sign s ++ digits_f prec 0
  | S754_finite s m e => sign s ++ digits_f prec (exact m e)
  end.

(** [{x:.<prec>f}]. *)
Definition fmt_f (prec : nat) (x : float) : string :=
  fmt_signed (fun s => if s then "-" else "") prec x.

(** [{x:+.<prec>f}]: the sign is always printed. *)
Definition fmt_plus_f (prec : nat) (x : float) : string :=
  fmt_signed (fun s => if s then "-" else "+") prec x.

(** [float(z)]: the binary64 number nearest to an integer, ties to
    even. *)
Definition of_Z (z : Z) : float :=
  SF2Prim (binary_normalize prec emax z 0 false).

(** [str(shape)] for a tuple of dimensions: [(3,)], [(2, 4)]. *)
Definition str_shape (dims : list nat) : string :=
  match dims with
  | [] => "()"
  | [d] => "(" ++ str_nat d ++ ",)"
  | d :: ds => "(" ++ str_nat d ++ fold_right (fun x acc => ", " ++ str_nat x ++ acc) ")" ds
  end.

End Fmt.

(** ** The container: a tree of groups and datasets *)

(** An attribute value: integer, floating-point or text. *)
Inductive attr : Type :=
| AInt (z : Z)
| AFloat (x : float)
| AText (s : string).

(** A dataset is a two-dimensional table of binary64 numbers with [ncols]
    columns (every row has [ncols] entries), a one-dimensional array of
    integers or of UTF-8 text, or a scalar dataset: one value and no
    dimension. *)
Inductive dataset : Type :=
| Table (ncols : nat) (rows : list (list float))
| IntVec (xs : list Z)
| TextVec (xs : list string)
| Scalar (v : attr).

(** A node is a dataset, a group with attributes and named members, or
    what a dangling link leads to: a soft or external link whose target
    does not exist. Attributes of datasets are not modelled: the program
    reads none. *)
#[warnings="-register-all"]
Inductive node : Type :=
| Dataset (d : dataset)
| Group (attrs : list (string * attr)) (children : list (string * node))
| Dangling.

(** One element of a dataset iterated along its first axis. *)
Inductive cell : Type :=
| CText (s : string)
| CInt (z : Z)
| CRow (r : list float).

Definition shape (d : dataset) : list nat :=
  match d with
  | Table ncols rows => [List.length rows; ncols]
  | IntVec xs => [List.length xs]
  | TextVec xs => [List.length xs]
  | Scalar _ => []
  end.

Definition elements (d : dataset) : list cell :=
  match d with
  | Table _ rows => map CRow rows
  | IntVec xs => map CInt xs
  | TextVec xs => map CText xs
  | Scalar _ => []
  end.

(** Lookup in an association list keyed by strings: the first match. *)
Fixpoint assoc {A : Type} (k : string) (l : list (string * A)) : option A :=
  match l with
  | [] => None
  | (k', v) :: l' => if String.eqb k k' then Some v else assoc k l'
  end.

(** *** Paths *)

(** [p.split("/")]. *)
Fixpoint split_slash (p : string) : list string :=
  match p with
  | EmptyString => [EmptyString]
  | String c p' =>
      if Ascii.eqb c "/" then EmptyString :: split_slash p'
      else match split_slash p' with
           | [] => [String c EmptyString]
           | seg :: rest => String c seg :: rest
           end
  end.

Definition nonempty (s : string) : bool :=
  match s with EmptyString => false | _ => true end.

(** The parts of a path: duplicate, leading and trailing slashes are
    ignored. *)
Definition parts (p : string) : list string :=
  filter nonempty (split_slash p).

Definition is_dot (s : string) : bool := String.eqb s ".".

(** The components of a path that name a link: the part [.] stands for
    the group reached so far. *)
Definition components (p : string) : list string :=
  filter (fun s => negb (is_dot s)) (parts p).

(** Follow the components from a node downwards, to an object. *)
Fixpoint descend (n : node) (segs : list string) : option node :=
  match segs with
  | [] => match n with
          | Dangling => None
          | _ => Some n
          end
  | s :: rest =>
      match n with
      | Group _ children =>
          match assoc s children with
          | Some c => descend c rest
          | None => None
          end
      | _ => None
      end
  end.

(** [g[path]]: the object a path addresses below [g], if any. The empty
    path addresses nothing. *)
Definition resolve (g : node) (p : string) : option node :=
  match p with
  | EmptyString => None
  | _ => descend g (components p)
  end.

(** The walk of h5py's membership test along the parts of a path: every
    link but the last must lead to a group, the last must exist. *)
Fixpoint path_valid (n : node) (ps : list string) : bool :=
  match ps with
  | [] => true
  | part :: rest =>
      if is_dot part then path_valid n rest
      else
        match n with
        | Group _ children =>
            match assoc part children with
            | None => false
            | Some c =>
                match rest with
                | [] => true
                | _ => match c with
                       | Group _ _ => path_valid c rest
                       | _ => false
                       end
                end
            end
        | _ => false
        end
  end.

(** The members of a group or the attributes of an object in the order
    h5py iterates them: by name. *)
Fixpoint insert_by_name {A : Type} (x : string * A) (l : list (string * A))
  : list (string * A) :=
  match l with
  | [] => [x]
  | y :: l' =>
      if String.leb (fst x) (fst y) then x :: l
      else y :: insert_by_name x l'
  end.

Definition by_name {A : Type} (l : list (string * A)) : list (string * A) :=
  fold_right insert_by_name [] l.

(** The name of a member below a group already named [prefix]. *)
Definition join (prefix name : string) : string :=
  match prefix with
  | EmptyString => name
  | _ => prefix ++ "/" ++ name
  end.

(** [g.visititems]: every object below [g] with its name relative to
    [g], a group before its members and the members by name; a link that
    leads to no object is passed over. *)
Fixpoint visit (prefix : string) (n : node) : list (string * node) :=
  match n with
  | Group _ children =>
      concat (map snd (by_name (map (fun nc =>
        (fst nc,
         match snd nc with
         | Dangling => []
         | _ => (join prefix (fst nc), snd nc)
                :: visit (join prefix (fst nc)) (snd nc)
         end)) children)))
  | _ => []
  end.

Definition visititems (f : node) : list (string * node) := visit "" f.

(** [name.count("/")]. *)
Fixpoint count_slash (s : string) : nat :=
  match s with
  | EmptyString => O
  | String c s' => (if Ascii.eqb c "/" then 1 else 0) + count_slash s'
  end.

(** ** numpy reductions on a one-dimensional binary64 array *)

Module Np.

Local Open Scope float_scope.

(** [res += a[i]], left to right. *)
Definition add_all (res : float) (a : list float) : float :=
  fold_left add a res.

(** [r[j] += a[j]] for the eight accumulators. *)
Fixpoint add_lanes (r a : list float) : list float :=
  match r, a with
  | x :: r', y :: a' => (x + y) :: add_lanes r' a'
  | _, _ => r
  end.

(** The unrolled loop: each further group of eight elements is added to
    the accumulators. Returns the accumulators and the elements left. *)
Fixpoint unrolled (r a : list float) (groups : nat)
  : list float * list float :=
  match groups with
  | O => (r, a)
  | S k => unrolled (add_lanes r (firstn 8 a)) (skipn 8 a) k
  end.

(** A block of 8 to 128 elements: eight accumulators, added up as a
    tree, then the elements left over. *)
Definition block (a : list float) : float :=
  match unrolled (firstn 8 a) (skipn 8 a) (List.length a / 8 - 1) with
  | ([r0; r1; r2; r3; r4; r5; r6; r7], rest) =>
      add_all (((r0 + r1) + (r2 + r3)) + ((r4 + r5) + (r6 + r7))) rest
  | _ => nan
  end.

(** numpy's pairwise summation: fewer than 8 elements are added in
    order, starting from -0.0; up to 128 form a block; more are split in
    two, the first part half as long, less a remainder of eight. Every
    split shortens the array, so its length is fuel enough. *)
Fixpoint pairwise_sum (fuel : nat) (a : list float) : float :=
  let n := List.length a in
  if (n <? 8)%nat then add_all neg_zero a
  else if (n <=? 128)%nat then block a
  else
    match fuel with
    | O => nan
    | S k =>
        let n2 := (n / 2 - (n / 2) mod 8)%nat in
        pairwise_sum k (firstn n2 a) + pairwise_sum k (skipn n2 a)
    end.

(** [a.sum()]: 0.0 for an empty array, else the pairwise sum added to the
    identity -0.0. *)
Definition sum (a : list float) : float :=
  match a with
  | [] => 0
  | _ => neg_zero + pairwise_sum (List.length a) a
  end.

(** One step of [minimum.reduce] and of [maximum.reduce]: a NaN
    propagates. *)
Definition min2 (a b : float) : float :=
  if (a <=? b) || is_nan a then a else b.

Definition max2 (a b : float) : float :=
  if (b <=? a) || is_nan a then a else b.

(** [a.min()] and [a.max()]; [None] on an empty array. *)
Definition min (a : list float) : option float :=
  match a with
  | [] => None
  | x :: a' => Some (fold_left min2 a' x)
  end.

Definition max (a : list float) : option float :=
  match a with
  | [] => None
  | x :: a' => Some (fold_left max2 a' x)
  end.

End Np.

(** ** Effects: printed lines, container accesses, exceptions *)

Inductive exn : Type :=
| FileNotFoundError (path : string)
| KeyError (key : string)
| IndexError
| TypeError
| ValueError.

(** An access to the container: an object opened by its path, or an
    attribute read from the object at a path. *)
Inductive access : Type :=
| Obj (path : string)
| Attr (path key : string).

(** One line per [print] call, with the values it interpolates. *)
Inductive line : Type :=
(* shared *)
| Rule                                   (* "=" * 60 *)
(* print_structure *)
| StructureTitle (filepath : string)
| WalkDataset (name : string) (d : dataset)
| WalkGroup (name : string)
| WalkAttr (name key : string) (val : attr)
(* read_element *)
| NotFound (element_path filepath : string)
| AvailablePaths
| AvailablePath (name : string)
| ElemPath (element_path : string)
| ElemTypeDataset
| ElemShape (d : dataset)
| ElemDtype (d : dataset)
| ElemData (d : dataset)
| ElemTypeGroup
| ElemAttributes
| ElemAttr (key : string) (val : attr)
| ElemChildren
| ElemChild (key : string)
(* read_scenario *)
| Reading (filepath : string)
| InputLoads (d : dataset)
| Columns
| TotalP (p : float)
| TotalQ (q : float)
| BaseCase
| TotalGen (pg : float)
| VoltageRange (lo hi : float)
| LoadShed (p_shed q_shed : float)
| Dashes                                 (* "\n" + "-" * 60 *)
| DashRule                               (* "-" * 60 *)
| Contingencies (n_cont : attr)
| CatalogLine (idx : nat) (name : cell) (type_str : string) (id : cell)
| ResultsTitle
| ResultsHeader
| ResultsRule
| ResultRow (name : string) (objective p_shed : float) (status : string)
| FailedRow (name : string) (status : string)
| RedispatchTitle
| RedispatchHeader
| RedispatchRow (idx : nat) (base_pg cont_pg dpg : float)
| NoRedispatch
| Footer.                                (* "\n" + "=" * 60 *)

(** What a run does, in order: it prints a line or touches the
    container. *)
Inductive event : Type :=
| Print (l : line)
| Access (a : access).

(** A computation yields the events it performed, in order, and then a
    value or the exception it raised: what was printed and touched before
    an exception stays. The container is only read, so there is no state
    to thread. *)
Definition M (A : Type) : Type := (list event * (exn + A))%type.

Definition ret {A : Type} (a : A) : M A := ([], inr a).

Definition bind {A B : Type} (m : M A) (k : A -> M B) : M B :=
  match m with
  | (t, inl e) => (t, inl e)
  | (t, inr a) => let (t', r) := k a in (t ++ t', r)%list
  end.

Definition raise {A : Type} (e : exn) : M A := ([], inl e).

Definition print (l : line) : M unit := ([Print l], inr tt).

Definition touch (a : access) : M unit := ([Access a], inr tt).

(** The lines a run printed, oldest first. *)
Fixpoint lines (t : list event) : list line :=
  match t with
  | [] => []
  | Print l :: t' => l :: lines t'
  | Access _ :: t' => lines t'
  end.

(** The container accesses of a run, oldest first. *)
Fixpoint accesses (t : list event) : list access :=
  match t with
  | [] => []
  | Print _ :: t' => accesses t'
  | Access a :: t' => a :: accesses t'
  end.

Definition trace {A : Type} (m : M A) : list event := fst m.
Definition result {A : Type} (m : M A) : exn + A := snd m.
Definition printed {A : Type} (m : M A) : list line := lines (trace m).
Definition accessed {A : Type} (m : M A) : list access := accesses (trace m).

(** Lift a pure result that may be an exception. *)
Definition lift {A : Type} (r : exn + A) : M A :=
  match r with
  | inl e => raise e
  | inr a => ret a
  end.

Declare Scope monad_scope.
Delimit Scope monad_scope with monad.
Notation "x <- m ;; k" := (bind m (fun x => k))
  (at level 61, m at next level, right associativity) : monad_scope.
Notation "m ;; k" := (bind m (fun _ => k))
  (at level 61, right associativity) : monad_scope.
Local Open Scope monad_scope.

(** [for x in xs: body(x)]. *)
Fixpoint for_ {A : Type} (xs : list A) (body : A -> M unit) : M unit :=
  match xs with
  | [] => ret tt
  | x :: xs' => body x ;; for_ xs' body
  end.

(** ** h5py objects *)

(** An open object: its name in the file and the node it denotes. *)
Record obj : Type := mkObj { name : string; target : node }.

(** The file object: the root group. *)
Definition root (f : node) : obj := mkObj "" f.

(** [path in o]: the empty path is in no group. *)
Definition contains (o : obj) (path : string) : bool :=
  match path with
  | EmptyString => false
  | _ => path_valid (target o) (parts path)
  end.

(** [o.keys()] and [o.attrs.items()]. *)
Definition keys (n : node) : list (string * node) :=
  match n with
  | Group _ children => by_name children
  | _ => []
  end.

Definition items (n : node) : list (string * attr) :=
  match n with
  | Group attrs _ => by_name attrs
  | _ => []
  end.

(** [o[path]]: KeyError when no object is there. *)
Definition getitem (o : obj) (path : string) : M obj :=
  touch (Obj (join (name o) path)) ;;
  match resolve (target o) path with
  | Some n => ret (mkObj (join (name o) path) n)
  | None => raise (KeyError path)
  end.

Definition attrs_of (n : node) : list (string * attr) :=
  match n with
  | Group attrs _ => attrs
  | _ => []
  end.

(** [o.attrs[key]]: KeyError when the attribute is absent. *)
Definition getattr (o : obj) (key : string) : M attr :=
  touch (Attr (name o) key) ;;
  match assoc key (attrs_of (target o)) with
  | Some v => ret v
  | None => raise (KeyError key)
  end.

Definition is_scalar (d : dataset) : bool :=
  match d with
  | Scalar _ => true
  | _ => false
  end.

(** [o[:]]: the whole dataset; a scalar dataset has no axis to slice,
    and a group cannot be sliced. *)
Definition slice_all (o : obj) : M dataset :=
  match target o with
  | Dataset d => if is_scalar d then raise ValueError else ret d
  | _ => raise TypeError
  end.

(** Entry [c] of every row. *)
Definition col (c : nat) (rows : list (list float)) : list float :=
  map (fun r => nth c r 0%float) rows.

(** [d[:, c]]: column [c] of a table; any other indexing is out of
    range (too many indices for a one-dimensional array). *)
Definition column (c : nat) (d : dataset) : exn + list float :=
  match d with
  | Table ncols rows =>
      if (c <? ncols)%nat then inr (col c rows) else inl IndexError
  | _ => inl IndexError
  end.

(** [o[:, c]]. *)
Definition slice_column (c : nat) (o : obj) : M (list float) :=
  d <- slice_all o ;; lift (column c d).

(** [xs[i]] for [0 <= i]. *)
Definition index {A : Type} (xs : list A) (i : nat) : exn + A :=
  match nth_error xs i with
  | Some x => inr x
  | None => inl IndexError
  end.

(** The files that exist, by path. *)
Definition filesystem : Type := string -> option node.

(** [h5py.File(filepath, "r")]. *)
Definition open_file (fs : filesystem) (filepath : string) : M obj :=
  match fs filepath with
  | Some f => ret (root f)
  | None => raise (FileNotFoundError filepath)
  end.

(** ** print_structure *)

(** The callback of [print_structure]. *)
Definition visitor (name : string) (n : node) : M unit :=
  match n with
  | Dataset d => print (WalkDataset name d)
  | _ =>
      print (WalkGroup name) ;;
      for_ (items n) (fun kv => print (WalkAttr name (fst kv) (snd kv)))
  end.

Definition print_structure (fs : filesystem) (filepath : string) : M unit :=
  print Rule ;;
  print (StructureTitle filepath) ;;
  print Rule ;;
  f <- open_file fs filepath ;;
  for_ (visititems (target f)) (fun pn => visitor (fst pn) (snd pn)).

(** ** read_element *)

Definition read_element (fs : filesystem) (filepath element_path : string)
  : M unit :=
  f <- open_file fs filepath ;;
  if negb (contains f element_path) then
    print (NotFound element_path filepath) ;;
    print AvailablePaths ;;
    for_ (visititems (target f)) (fun pn => print (AvailablePath (fst pn)))
  else
    o <- getitem f element_path ;;
    print (ElemPath element_path) ;;
    match target o with
    | Dataset _ =>
        data <- slice_all o ;;
        print ElemTypeDataset ;;
        print (ElemShape data) ;;
        print (ElemDtype data) ;;
        print (ElemData data)
    | _ =>
        print ElemTypeGroup ;;
        print ElemAttributes ;;
        for_ (items (target o))
          (fun kv => print (ElemAttr (fst kv) (snd kv))) ;;
        print ElemChildren ;;
        for_ (keys (target o)) (fun kc => print (ElemChild (fst kc)))
    end.

(** ** read_scenario *)

(** [a == 1]. *)
Definition attr_eq1 (a : attr) : bool :=
  match a with
  | AInt z => (z =? 1)%Z
  | AFloat x => (x =? 1)%float
  | AText _ => false
  end.

(** [range(a)]: only an integer counts. *)
Definition attr_range (a : attr) : exn + list nat :=
  match a with
  | AInt z => inr (seq 0 (Z.to_nat z))
  | _ => inl TypeError
  end.

(** The number formatted by [{a:>11.2f}]: an integer is converted to
    binary64; text has no such format. *)
Definition attr_float (a : attr) : exn + float :=
  match a with
  | AInt z => inr (Fmt.of_Z z)
  | AFloat x => inr x
  | AText _ => inl ValueError
  end.

(** The truth value of [c == 0]: a row of several numbers has none. *)
Definition cell_eq0 (c : cell) : exn + bool :=
  match c with
  | CInt z => inr (z =? 0)%Z
  | CText _ => inr false
  | CRow [x] => inr (x =? 0)%float
  | CRow _ => inl ValueError
  end.

(** The text formatted by [{c:<21}]; an array has no such format. *)
Definition cell_text (c : cell) : exn + string :=
  match c with
  | CText s => inr s
  | CInt z => inr (Fmt.str_Z z)
  | CRow _ => inl TypeError
  end.

(** ["LINE" if t == 0 else "GEN"]. *)
Definition type_str (is_zero : bool) : string :=
  if is_zero then "LINE" else "GEN".

(** The four status texts of a result row. *)
Definition status_ok (pf_converged : bool) : string :=
  if pf_converged then "PF+OPF OK" else "OPF OK".

Definition status_fail (pf_converged : bool) : string :=
  if pf_converged then "PF OK, OPF FAIL" else "BOTH FAIL".

(** The path of the result group of contingency [i] (counted from 0). *)
Definition contingency_path (i : nat) : string :=
  "post_contingency/contingency_" ++ Fmt.zfill6 (i + 1).

(** The differences of two arrays, position by position. *)
Definition zip_sub (a b : list float) : list float :=
  map (fun xy => fst xy - snd xy)%float (combine a b).

(** [a - b] on one-dimensional arrays, with numpy broadcasting: equal
    lengths, or one of them of length one. *)
Definition broadcast_sub (a b : list float) : exn + list float :=
  if (List.length a =? List.length b)%nat then inr (zip_sub a b)
  else if (List.length a =? 1)%nat then
    inr (map (fun y => hd 0 a - y)%float b)
  else if (List.length b =? 1)%nat then
    inr (map (fun x => x - hd 0 b)%float a)
  else inl ValueError.

(** [np.abs(d) > 0.01]. *)
Definition is_significant (d : float) : bool :=
  (0.01 <? abs d)%float.

(** [np.where(mask)[0]]: the positions that hold, ascending. *)
Fixpoint where_from (i : nat) (mask : list bool) : list nat :=
  match mask with
  | [] => []
  | b :: mask' =>
      if b then i :: where_from (S i) mask' else where_from (S i) mask'
  end.

Definition where_ (mask : list bool) : list nat := where_from 0 mask.

(** [mask.any()]. *)
Definition any (mask : list bool) : bool := existsb (fun b => b) mask.

(** Lines 75-79: the input loads. Returns [load_input]. *)
Definition input_loads (f : obj) : M dataset :=
  o <- getitem f "grid/nodes/load" ;;
  load_input <- slice_all o ;;
  print (InputLoads load_input) ;;
  print Columns ;;
  pd <- lift (column 0 load_input) ;;
  print (TotalP (Np.sum pd)) ;;
  qd <- lift (column 1 load_input) ;;
  print (TotalQ (Np.sum qd)) ;;
  ret load_input.

(** Lines 82-93: the base case and its load shed. *)
Definition base_case (f : obj) (load_input : dataset) : M unit :=
  o <- getitem f "base_solution/opf/nodes/bus" ;;
  base_vm <- slice_column 1 o ;;
  o <- getitem f "base_solution/opf/nodes/generator" ;;
  base_pg <- slice_column 0 o ;;
  o <- getitem f "base_solution/opf/nodes/load" ;;
  base_load_served <- slice_all o ;;
  print BaseCase ;;
  print (TotalGen (Np.sum base_pg)) ;;
  match Np.min base_vm, Np.max base_vm with
  | Some lo, Some hi => print (VoltageRange lo hi)
  | _, _ => raise ValueError
  end ;;
  pd <- lift (column 0 load_input) ;;
  p <- lift (column 0 base_load_served) ;;
  qd <- lift (column 1 load_input) ;;
  q <- lift (column 1 base_load_served) ;;
  print (LoadShed (Np.sum pd - Np.sum p) (Np.sum qd - Np.sum q)).

(** Lines 96-106: the contingency definitions. Returns [n_cont] and
    [cont_names]. *)
Definition contingency_definitions (f : obj) : M (attr * list cell) :=
  o <- getitem f "contingencies" ;;
  n_cont <- getattr o "count" ;;
  o <- getitem f "contingencies/types" ;;
  cont_types <- slice_all o ;;
  o <- getitem f "contingencies/names" ;;
  names <- slice_all o ;;
  o <- getitem f "contingencies/ids" ;;
  ids <- slice_all o ;;
  let cont_names := elements names in
  let cont_ids := elements ids in
  print Dashes ;;
  print (Contingencies n_cont) ;;
  print DashRule ;;
  r <- lift (attr_range n_cont) ;;
  for_ r (fun i =>
    t <- lift (index (elements cont_types) i) ;;
    z <- lift (cell_eq0 t) ;;
    nm <- lift (index cont_names i) ;;
    id <- lift (index cont_ids i) ;;
    print (CatalogLine (i + 1) nm (type_str z) id)) ;;
  ret (n_cont, cont_names).

(** Lines 116-131: the result row of contingency [i]. *)
Definition result_row (f : obj) (load_input : dataset)
    (cont_names : list cell) (i : nat) : M unit :=
  g <- getitem f (contingency_path i) ;;
  pf <- getattr g "pf_converged" ;;
  opf <- getattr g "opf_converged" ;;
  let pf_converged := attr_eq1 pf in
  let opf_converged := attr_eq1 opf in
  if opf_converged then
    o <- getitem g "opf/nodes/load" ;;
    load_served <- slice_all o ;;
    o <- getitem g "opf" ;;
    objective <- getattr o "objective" ;;
    pd <- lift (column 0 load_input) ;;
    p <- lift (column 0 load_served) ;;
    let p_shed := (Np.sum pd - Np.sum p)%float in
    let status := status_ok pf_converged in
    nm <- lift (index cont_names i) ;;
    nm <- lift (cell_text nm) ;;
    objective <- lift (attr_float objective) ;;
    print (ResultRow nm objective p_shed status)
  else
    let status := status_fail pf_converged in
    nm <- lift (index cont_names i) ;;
    nm <- lift (cell_text nm) ;;
    print (FailedRow nm status).

(** Lines 109-131: the table of post-contingency results. *)
Definition post_contingency (f : obj) (load_input : dataset)
    (n_cont : attr) (cont_names : list cell) : M unit :=
  print Dashes ;;
  print ResultsTitle ;;
  print DashRule ;;
  print ResultsHeader ;;
  print ResultsRule ;;
  r <- lift (attr_range n_cont) ;;
  for_ r (result_row f load_input cont_names).

(** Lines 143-148: the table of significant redispatch, or the notice. *)
Definition redispatch_table (base_pg cont_pg dpg : list float) : M unit :=
  let significant := map is_significant dpg in
  if any significant then
    print RedispatchHeader ;;
    for_ (where_ significant) (fun i =>
      b <- lift (index base_pg i) ;;
      c <- lift (index cont_pg i) ;;
      d <- lift (index dpg i) ;;
      print (RedispatchRow (i + 1) b c d))
  else
    print NoRedispatch.

(** Lines 134-148: the redispatch between the base case and
    contingency 1. *)
Definition redispatch (f : obj) : M unit :=
  print Dashes ;;
  print RedispatchTitle ;;
  print DashRule ;;
  o <- getitem f "base_solution/opf/nodes/generator" ;;
  base_gen <- slice_all o ;;
  o <- getitem f "post_contingency/contingency_000001/opf/nodes/generator" ;;
  cont1_gen <- slice_all o ;;
  cont_pg <- lift (column 0 cont1_gen) ;;
  base_pg <- lift (column 0 base_gen) ;;
  dpg <- lift (broadcast_sub cont_pg base_pg) ;;
  redispatch_table base_pg cont_pg dpg.

(** The body of the [with] block of [read_scenario]. *)
Definition summarize (f : obj) : M unit :=
  load_input <- input_loads f ;;
  base_case f load_input ;;
  nc <- contingency_definitions f ;;
  post_contingency f load_input (fst nc) (snd nc) ;;
  redispatch f ;;
  print Footer.

Definition read_scenario (fs : filesystem) (filepath : string) : M unit :=
  print Rule ;;
  print (Reading filepath) ;;
  print Rule ;;
  f <- open_file fs filepath ;;
  summarize f.

(** ** main *)

(** The parsed command line. *)
Record args : Type := mkArgs {
  filepath : string;
  structure : bool;
  element : option string
}.

(** The truth value of [args.element]: given and not empty. *)
Definition element_given (a : args) : option string :=
  match element a with
  | Some p => if nonempty p then Some p else None
  | None => None
  end.

Definition main (fs : filesystem) (a : args) : M unit :=
  if structure a then print_structure fs (filepath a)
  else match element_given a with
       | Some p => read_element fs (filepath a) p
       | None => read_scenario fs (filepath a)
       end.


(** ** The text of a line *)

(** Python's default text of stored values ([str] of a float, of an array,
    of a dtype) belongs to numpy, not to this program: it is a parameter
    of the rendering. Everything with an explicit format is computed. *)
Record numpy_str : Type := mkNumpyStr {
  str_float : float -> string;
  str_array : dataset -> string;
  str_row : list float -> string;
  str_dtype : dataset -> string
}.

Section Render.

Variable np : numpy_str.

Definition nl : string := String (ascii_of_nat 10) EmptyString.

Definition str_attr (a : attr) : string :=
  match a with
  | AInt z => Fmt.str_Z z
  | AFloat x => str_float np x
  | AText s => s
  end.

Definition str_cell (c : cell) : string :=
  match c with
  | CText s => s
  | CInt z => Fmt.str_Z z
  | CRow r => str_row np r
  end.

(** ["  " * name.count("/")]. *)
Fixpoint indent (n : nat) : string :=
  match n with
  | O => ""
  | S k => "  " ++ indent k
  end.

Definition render (l : line) : string :=
  match l with
  | Rule => Fmt.repeat_char "=" 60
  | StructureTitle filepath => "HDF5 Structure: " ++ filepath
  | WalkDataset name d =>
      indent (count_slash name) ++ name ++ ": " ++ Fmt.str_shape (shape d)
      ++ " " ++ str_dtype np d
  | WalkGroup name => indent (count_slash name) ++ name ++ "/"
  | WalkAttr name key val =>
      indent (count_slash name) ++ "  @" ++ key ++ " = " ++ str_attr val
  | NotFound element_path filepath =>
      "Error: '" ++ element_path ++ "' not found in " ++ filepath
  | AvailablePaths => nl ++ "Available paths:"
  | AvailablePath name => "  " ++ name
  | ElemPath element_path => "Path: " ++ element_path
  | ElemTypeDataset => "Type: Dataset"
  | ElemShape d => "Shape: " ++ Fmt.str_shape (shape d)
  | ElemDtype d => "Dtype: " ++ str_dtype np d
  | ElemData d => nl ++ "Data:" ++ nl ++ str_array np d
  | ElemTypeGroup => "Type: Group"
  | ElemAttributes => "Attributes:"
  | ElemAttr key val => "  " ++ key ++ " = " ++ str_attr val
  | ElemChildren => "Children:"
  | ElemChild key => "  " ++ key
  | Reading filepath => "Reading: " ++ filepath
  | InputLoads d => nl ++ "Input loads: " ++ Fmt.str_shape (shape d)
  | Columns => "  Columns: [pd, qd, weight_p, weight_q]"
  | TotalP p => "  Total P demand: " ++ Fmt.fmt_f 2 p ++ " MW"
  | TotalQ q => "  Total Q demand: " ++ Fmt.fmt_f 2 q ++ " MVAr"
  | BaseCase => nl ++ "Base case OPF:"
  | TotalGen pg => "  Total generation: " ++ Fmt.fmt_f 2 pg ++ " MW"
  | VoltageRange lo hi =>
      "  Voltage range: " ++ Fmt.fmt_f 4 lo ++ " - " ++ Fmt.fmt_f 4 hi
      ++ " p.u."
  | LoadShed p_shed q_shed =>
      "  Load shed: P=" ++ Fmt.fmt_f 2 p_shed ++ " MW, Q="
      ++ Fmt.fmt_f 2 q_shed ++ " MVAr"
  | Dashes => nl ++ Fmt.repeat_char "-" 60
  | DashRule => Fmt.repeat_char "-" 60
  | Contingencies n_cont => "Contingencies: " ++ str_attr n_cont
  | CatalogLine idx name ts id =>
      "  " ++ Fmt.str_nat idx ++ ": " ++ str_cell name ++ " (" ++ ts
      ++ " outage, id=" ++ str_cell id ++ ")"
  | ResultsTitle => "Post-contingency OPF results:"
  | ResultsHeader =>
      "  Name                  | Cost ($)    | P Shed (MW) | Status"
  | ResultsRule => "  " ++ Fmt.repeat_char "-" 56
  | ResultRow name objective p_shed status =>
      "  " ++ Fmt.ljust 21 name ++ " | "
      ++ Fmt.rjust 11 (Fmt.fmt_f 2 objective) ++ " | "
      ++ Fmt.rjust 11 (Fmt.fmt_f 2 p_shed) ++ " | " ++ status
  | FailedRow name status =>
      "  " ++ Fmt.ljust 21 name ++ " | " ++ Fmt.rjust 11 "-" ++ " | "
      ++ Fmt.rjust 11 "-" ++ " | " ++ status
  | RedispatchTitle => "Generator Redispatch (Base -> Contingency 1):"
  | RedispatchHeader => "  Gen#     Base Pg     Cont Pg      Delta"
  | RedispatchRow idx base_pg cont_pg dpg =>
      "  " ++ Fmt.rjust 4 (Fmt.str_nat idx) ++ "     "
      ++ Fmt.rjust 7 (Fmt.fmt_f 3 base_pg) ++ "     "
      ++ Fmt.rjust 7 (Fmt.fmt_f 3 cont_pg) ++ "     "
      ++ Fmt.rjust 7 (Fmt.fmt_plus_f 3 dpg)
  | NoRedispatch => "  No significant redispatch (all |delta| < 0.01 p.u.)"
  | Footer => nl ++ Fmt.repeat_char "=" 60
  end.

End Render.

(** ** Sample containers *)

Module Sample.

(** The solution sub-tree [opf] of a scenario with one generator and two
    loads. *)
Definition opf (objective pg : float) (served : list (list float)) : node :=
  Group [("objective", AFloat objective)]
    [("nodes", Group []
       [("bus", Dataset (Table 2 [[1; 1.02]; [2; 0.98]]%float));
        ("generator", Dataset (Table 1 [[pg]]));
        ("load", Dataset (Table 2 served))])].

Definition grid : node :=
  Group [] [("nodes", Group []
    [("load", Dataset (Table 4 [[10; 5; 1; 1]; [20; 8; 1; 1]]%float))])].

Definition base_solution : node :=
  Group [] [("opf", opf 100 30 [[10; 5]; [15; 6]]%float)].

(** The catalog: [count] declared, and the three parallel arrays. *)
Definition catalog (count : Z) (types : list Z) (names ids : list string)
  : node :=
  Group [("count", AInt count)]
    [("types", Dataset (IntVec types));
     ("names", Dataset (TextVec names));
     ("ids", Dataset (TextVec ids))].

(** A result group: the two flags and, when given, the solution. *)
Definition outcome (pf opf_flag : Z) (solution : option node) : node :=
  Group [("pf_converged", AInt pf); ("opf_converged", AInt opf_flag)]
    match solution with
    | Some s => [("opf", s)]
    | None => []
    end.

Definition scenario (cat : node) (results : list (string * node)) : node :=
  Group []
    [("grid", grid);
     ("base_solution", base_solution);
     ("contingencies", cat);
     ("post_contingency", Group [] results)].

(** Two contingencies: the first solved with a redispatch of the
    generator, the second with a failed optimisation and no solution. *)
Definition valid : node :=
  scenario (catalog 2 [0; 1]%Z ["LINE_1_2"; "GEN_3"] ["L12"; "G3"])
    [("contingency_000001",
      outcome 1 1 (Some (opf 105.05 30.5 [[10; 5]; [12; 6]]%float)));
     ("contingency_000002", outcome 1 0 None)].

(** One contingency declared, two listed in each parallel array. *)
Definition longer_arrays : node :=
  scenario (catalog 1 [0; 1]%Z ["LINE_1_2"; "GEN_3"] ["L12"; "G3"])
    [("contingency_000001",
      outcome 1 1 (Some (opf 105.05 30.5 [[10; 5]; [12; 6]]%float)))].

(** Two contingencies declared, one listed in [types]. *)
Definition shorter_types : node :=
  scenario (catalog 2 [0]%Z ["LINE_1_2"; "GEN_3"] ["L12"; "G3"])
    [("contingency_000001",
      outcome 1 1 (Some (opf 105.05 30.5 [[10; 5]; [12; 6]]%float)));
     ("contingency_000002", outcome 1 0 None)].

(** The optimisation of contingency 1 failed: it has no solution. *)
Definition first_failed : node :=
  scenario (catalog 1 [0]%Z ["LINE_1_2"] ["L12"])
    [("contingency_000001", outcome 1 0 None)].

(** Five contingencies; the third has a feasible power flow and a failed
    optimisation. *)
Definition five : node :=
  let solved := outcome 1 1
    (Some (opf 105.05 30.5 [[10; 5]; [12; 6]]%float)) in
  scenario (catalog 5 [0; 0; 1; 1; 0]%Z ["c1"; "c2"; "c3"; "c4"; "c5"]
                    ["1"; "2"; "3"; "4"; "5"])
    [("contingency_000001", solved);
     ("contingency_000002", solved);
     ("contingency_000003", outcome 1 0 None);
     ("contingency_000004", solved);
     ("contingency_000005", outcome 0 1
        (Some (opf 90 30 [[10; 5]; [20; 8]]%float)))].

(** Only the input loads are present. *)
Definition loads_only : node := Group [] [("grid", grid)].

(** Members and attributes stored out of name order, a scalar dataset
    and a dangling link. *)
Definition unordered : node :=
  Group []
    [("zeta", Dataset (IntVec [1; 2]%Z));
     ("alpha", Group [("unit", AText "MW"); ("base", AInt 100)]
        [("y", Dataset (Scalar (AInt 7)));
         ("x", Dangling);
         ("w", Group [] [])])].

(** A solution sub-tree with the given objective and tables. *)
Definition solution (objective : attr) (bus gens served : list (list float))
  : node :=
  Group [("objective", objective)]
    [("nodes", Group []
       [("bus", Dataset (Table 2 bus));
        ("generator", Dataset (Table 1 gens));
        ("load", Dataset (Table 2 served))])].

(** Three loads, three buses and four generators. In contingency 1 the
    generators move by 0.5, by 0.005, from 0.0 to 0.01 and by -1; its
    objective is stored as an integer. Contingency 2 failed. *)
Definition network : node :=
  Group []
    [("grid", Group [] [("nodes", Group []
        [("load", Dataset (Table 4
            [[10.5; 5; 1; 1]; [20; 8.25; 1; 1]; [7; 3; 1; 1]]%float))])]);
     ("base_solution", Group []
        [("opf", solution (AFloat 100)
                   [[1; 1.02]; [2; 0.98]; [3; 1.01]]%float
                   [[30]; [10]; [0]; [5]]%float
                   [[9; 5]; [15; 6]; [7; 2]]%float)]);
     ("contingencies",
      catalog 2 [0; 1]%Z ["LINE_1_2"; "GEN_3"] ["L12"; "G3"]);
     ("post_contingency", Group []
        [("contingency_000001",
          outcome 1 1
            (Some (solution (AInt 105)
                     [[1; 1.03]; [2; 0.97]; [3; 1]]%float
                     [[30.5]; [10.005]; [0.01]; [4]]%float
                     [[9; 5]; [14.5; 6]; [7; 2]]%float)));
         ("contingency_000002", outcome 0 0 None)])].

(** A file system with one file. *)
Definition disk (path : string) (f : node) : filesystem :=
  fun p => if String.eqb p path then Some f else None.

End Sample.

(** ** Observations on a run, used to state the properties *)

(** The status text of a result row. *)
Definition status_of (l : line) : option string :=
  match l with
  | ResultRow _ _ _ status => Some status
  | FailedRow _ status => Some status
  | _ => None
  end.

(** The status texts of the result rows among some lines, in order. *)
Fixpoint statuses (ls : list line) : list string :=
  match ls with
  | [] => []
  | l :: ls' =>
      match status_of l with
      | Some s => s :: statuses ls'
      | None => statuses ls'
      end
  end.

(** [P] holds of every line a computation prints. *)
Definition all_lines {A : Type} (P : line -> Prop) (m : M A) : Prop :=
  Forall P (printed m).

(** The two convergence flags stored for contingency [i] (counted from
    0), when its result group and both attributes exist. *)
Definition flags (f : node) (i : nat) : option (attr * attr) :=
  match resolve f (contingency_path i) with
  | Some g =>
      match assoc "pf_converged" (attrs_of g),
            assoc "opf_converged" (attrs_of g) with
      | Some pf, Some opf => Some (pf, opf)
      | _, _ => None
      end
  | None => None
  end.

(** The status text chosen by the two branches of [result_row]. *)
Definition status (pf_converged opf_converged : bool) : string :=
  if opf_converged then status_ok pf_converged
  else status_fail pf_converged.

(** A line of the redispatch table, or the notice that replaces it. *)
Definition is_redispatch_entry (l : line) : Prop :=
  match l with
  | RedispatchRow _ _ _ _ => True
  | NoRedispatch => True
  | _ => False
  end.

(** *** Well-formed containers

    HDF5 link names are not empty, contain no slash, are not the name [.]
    of the group itself, and are distinct within a group. *)

Definition valid_name (s : string) : bool :=
  nonempty s && (count_slash s =? 0)%nat && negb (is_dot s).

Fixpoint distinct (names : list string) : bool :=
  match names with
  | [] => true
  | n :: names' => negb (existsb (String.eqb n) names') && distinct names'
  end.

Fixpoint wf (n : node) : bool :=
  match n with
  | Group _ children =>
      distinct (map fst children)
      && forallb (fun nc => valid_name (fst nc) && wf (snd nc)) children
  | _ => true
  end.

(** The canonical spelling of a path: its components joined by single
    slashes. *)
Definition canonical (p : string) : string :=
  fold_left join (components p) "".

(** [len(d)]: the number of elements along the first axis. *)
Definition len (d : dataset) : nat := List.length (elements d).

(** The paths every summary opens, whatever the file holds. *)
Definition required_paths : list string :=
  ["grid/nodes/load";
   "base_solution/opf/nodes/bus";
   "base_solution/opf/nodes/generator";
   "base_solution/opf/nodes/load";
   "contingencies";
   "contingencies/types";
   "contingencies/names";
   "contingencies/ids";
   "post_contingency/contingency_000001/opf/nodes/generator"].

(** The path an access goes to. *)
Definition access_path (a : access) : string :=
  match a with
  | Obj path => path
  | Attr path _ => path
  end.

(** No access goes below the object at [path]. *)
Definition untouched (path : string) (log : list access) : bool :=
  forallb (fun a => negb (String.prefix path (access_path a))) log.

(** *** Predicates on lines *)

Definition no_status (l : line) : Prop := status_of l = None.

(** The label of a catalog line agrees with the type code stored at its
    position. *)
Definition catalog_label_ok (ts : list Z) (l : line) : Prop :=
  match l with
  | CatalogLine idx _ lbl _ =>
      exists code, nth_error ts (idx - 1) = Some code /\
        lbl = type_str (code =? 0)%Z
  | _ => True
  end.


Definition not_redispatch (l : line) : Prop := ~ is_redispatch_entry l.

(** A catalog line is printed only for a position present in all three
    parallel arrays. *)
Definition catalog_in_range (dt dn di : dataset) (l : line) : Prop :=
  match l with
  | CatalogLine idx _ _ _ =>
      (idx <= len dt /\ idx <= len dn /\ idx <= len di)%nat
  | _ => True
  end.

Definition not_footer (l : line) : Prop := l <> Footer.

(** [k] leading zero digits before a decimal numeral. *)
Fixpoint zeros (k : nat) (d : Decimal.uint) : Decimal.uint :=
  match k with
  | O => d
  | S k' => Decimal.D0 (zeros k' d)
  end.

(** A line of the table of post-contingency results. *)
Definition is_row (l : line) : bool :=
  match l with
  | ResultRow _ _ _ _ => true
  | FailedRow _ _ => true
  | _ => false
  end.

(** The rows of the table of post-contingency results among some lines,
    in order. *)
Definition rows (ls : list line) : list line := filter is_row ls.

(** A line of the catalog of contingencies. *)
Definition is_catalog (l : line) : bool :=
  match l with
  | CatalogLine _ _ _ _ => true
  | _ => false
  end.

(** The lines of the catalog among some lines, in order. *)
Definition catalog (ls : list line) : list line := filter is_catalog ls.

Definition not_catalog (l : line) : Prop := is_catalog l = false.

(** A base solution without buses. *)
Definition no_buses : node :=
  Group []
    [("grid", Sample.grid);
     ("base_solution", Group [] [("opf", Group []
        [("nodes", Group []
           [("bus", Dataset (Table 2 []));
            ("generator", Dataset (Table 1 [[30]]%float));
            ("load", Dataset (Table 2 [[10; 5]; [15; 6]]%float))])])])].

(** A catalog whose count was stored as a floating-point number. *)
Definition float_count : node :=
  Sample.scenario
    (Group [("count", AFloat 1)]
       [("types", Dataset (IntVec [0]%Z));
        ("names", Dataset (TextVec ["LINE_1_2"]));
        ("ids", Dataset (TextVec ["L12"]))])
    [("contingency_000001",
      Sample.outcome 1 1
        (Some (Sample.opf 105.05 30.5 [[10; 5]; [12; 6]]%float)))].

(** A catalog that declares no contingency. *)
Definition no_contingencies : node :=
  Sample.scenario (Sample.catalog 0 [] [] []) [].

(** The generator numbers of the rows of the redispatch table among some
    lines, in order. *)
Fixpoint redispatch_numbers (ls : list line) : list nat :=
  match ls with
  | [] => []
  | RedispatchRow idx _ _ _ :: ls' => idx :: redispatch_numbers ls'
  | _ :: ls' => redispatch_numbers ls'
  end.

(** Two generators in the base case, three in contingency 1. *)
Definition generator_mismatch : node :=
  Group []
    [("grid", Sample.grid);
     ("base_solution", Group [] [("opf", Group [("objective", AFloat 100)]
        [("nodes", Group []
           [("bus", Dataset (Table 2 [[1; 1.02]]%float));
            ("generator", Dataset (Table 1 [[30]; [10]]%float));
            ("load", Dataset (Table 2 [[10; 5]; [15; 6]]%float))])])]);
     ("contingencies", Sample.catalog 0 [] [] []);
     ("post_contingency", Group []
        [("contingency_000001", Group [] [("opf", Group []
           [("nodes", Group []
              [("generator",
                Dataset (Table 1 [[30]; [10]; [5]]%float))])])])])].

(** Neither a line of the redispatch table, nor its header, nor the
    notice. *)
Definition no_table (l : line) : Prop :=
  ~ is_redispatch_entry l /\ l <> RedispatchHeader.

(** [P] holds of every access a computation makes. *)
Definition all_accesses {A : Type} (P : access -> Prop) (m : M A) : Prop :=
  Forall P (accessed m).

(** The accesses of the schema: the paths every summary opens, the count,
    the result group of a contingency and its two flags, and, for a
    contingency whose optimisation converged, its served loads and the
    objective on its [opf] group. *)
Inductive schema_access (f : node) : access -> Prop :=
| sa_required (p : string) :
    In p required_paths -> schema_access f (Obj p)
| sa_count : schema_access f (Attr "contingencies" "count")
| sa_group (i : nat) : schema_access f (Obj (contingency_path i))
| sa_pf (i : nat) :
    schema_access f (Attr (contingency_path i) "pf_converged")
| sa_opf (i : nat) :
    schema_access f (Attr (contingency_path i) "opf_converged")
| sa_served (i : nat) (pf opf : attr) :
    flags f i = Some (pf, opf) -> attr_eq1 opf = true ->
    schema_access f (Obj (contingency_path i ++ "/opf/nodes/load"))
| sa_solution (i : nat) (pf opf : attr) :
    flags f i = Some (pf, opf) -> attr_eq1 opf = true ->
    schema_access f (Obj (contingency_path i ++ "/opf"))
| sa_objective (i : nat) (pf opf : attr) :
    flags f i = Some (pf, opf) -> attr_eq1 opf = true ->
    schema_access f (Attr (contingency_path i ++ "/opf") "objective").

(** * Properties *)

(** ** The monad: equations for the observations *)

Lemma lines_app (t u : list event) :
  lines (t ++ u) = (lines t ++ lines u)%list.
Proof.
  induction t as [| [l | a] t IH]; simpl; [reflexivity | f_equal; exact IH | exact IH].
Qed.

Lemma accesses_app (t u : list event) :
  accesses (t ++ u) = (accesses t ++ accesses u)%list.
Proof.
  induction t as [| [l | a] t IH]; simpl; [reflexivity | exact IH | f_equal; exact IH].
Qed.

Lemma result_bind {A B : Type} (m : M A) (k : A -> M B) :
  result (bind m k) =
  match result m with
  | inr a => result (k a)
  | inl e => inl e
  end.
Proof.
  destruct m as [t [e | a]]; simpl; [reflexivity |].
  unfold result; simpl. destruct (k a); reflexivity.
Qed.

Lemma trace_bind {A B : Type} (m : M A) (k : A -> M B) :
  trace (bind m k) =
  (trace m ++ match result m with
              | inr a => trace (k a)
              | inl _ => []
              end)%list.
Proof.
  destruct m as [t [e | a]]; unfold trace, result; simpl.
  - now rewrite app_nil_r.
  - destruct (k a) as [t' r]; reflexivity.
Qed.

Lemma printed_bind {A B : Type} (m : M A) (k : A -> M B) :
  printed (bind m k) =
  (printed m ++ match result m with
                | inr a => printed (k a)
                | inl _ => []
                end)%list.
Proof.
  destruct m as [t [e | a]]; unfold printed, trace, result; simpl.
  - now rewrite app_nil_r.
  - destruct (k a) as [t' r]; simpl. apply lines_app.
Qed.

Lemma accessed_bind {A B : Type} (m : M A) (k : A -> M B) :
  accessed (bind m k) =
  (accessed m ++ match result m with
                 | inr a => accessed (k a)
                 | inl _ => []
                 end)%list.
Proof.
  destruct m as [t [e | a]]; unfold accessed, trace, result; simpl.
  - now rewrite app_nil_r.
  - destruct (k a) as [t' r]; simpl. apply accesses_app.
Qed.

Lemma statuses_app (ls ls' : list line) :
  statuses (ls ++ ls') = (statuses ls ++ statuses ls')%list.
Proof.
  induction ls as [| l ls IH]; simpl; [reflexivity |].
  destruct (status_of l); simpl; now rewrite IH.
Qed.

Lemma statuses_nil (ls : list line) :
  Forall (fun l => status_of l = None) ls -> statuses ls = [].
Proof.
  induction 1 as [| l ls Hl _ IH]; simpl; [reflexivity |].
  now rewrite Hl.
Qed.

(** ** numpy's sum *)

(** Adding to the identity -0.0 changes nothing, also not the sign of a
    zero. *)
Lemma neg_zero_add (x : float) : (neg_zero + x)%float = x.
Proof.
  rewrite <- (SF2Prim_Prim2SF (neg_zero + x)), add_spec.
  change (Prim2SF neg_zero) with (S754_zero true).
  rewrite <- (SF2Prim_Prim2SF x) at 2. f_equal.
  destruct (Prim2SF x) as [[] | [] | | s m e]; reflexivity.
Qed.

(** The sum of fewer than eight numbers: the numbers added in order. *)
Lemma sum_short (a : list float) :
  (List.length a < 8)%nat ->
  Np.sum a = match a with
             | [] => 0%float
             | x :: a' => fold_left add a' x
             end.
Proof.
  intros H. destruct a as [| x a]; [reflexivity |].
  apply Nat.ltb_lt in H. unfold Np.sum.
  assert (Hp : forall k, Np.pairwise_sum k (x :: a)
                         = Np.add_all neg_zero (x :: a)).
  { intros [| k]; cbn [Np.pairwise_sum]; now rewrite H. }
  rewrite Hp. unfold Np.add_all. cbn [fold_left].
  now rewrite !neg_zero_add.
Qed.

Lemma length_add_lanes (r a : list float) :
  List.length (Np.add_lanes r a) = List.length r.
Proof.
  revert a. induction r as [| x r IH]; intros [| y a]; cbn; auto.
Qed.

Lemma unrolled_lanes (groups : nat) :
  forall r a : list float,
    List.length (fst (Np.unrolled r a groups)) = List.length r.
Proof.
  induction groups as [| k IH]; intros r a; cbn [Np.unrolled];
    [reflexivity |].
  now rewrite IH, length_add_lanes.
Qed.

(** A block has its eight accumulators. *)
Lemma block_defined (a : list float) :
  (8 <= List.length a)%nat ->
  exists (r0 r1 r2 r3 r4 r5 r6 r7 : float) (rest : list float),
    Np.unrolled (firstn 8 a) (skipn 8 a) (List.length a / 8 - 1)
    = ([r0; r1; r2; r3; r4; r5; r6; r7], rest).
Proof.
  intros H.
  pose proof (unrolled_lanes (List.length a / 8 - 1) (firstn 8 a)
                (skipn 8 a)) as Hl.
  rewrite length_firstn, Nat.min_l in Hl by exact H.
  destruct (Np.unrolled _ _ _) as [r rest]. cbn [fst] in Hl.
  do 8 (destruct r as [| ? r]; [discriminate Hl |]).
  destruct r; [| discriminate Hl]. repeat eexists.
Qed.

(** The length of the array is fuel enough: with that much, the sum does
    not depend on the fuel. *)
Lemma pairwise_sum_fuel (k1 : nat) :
  forall (k2 : nat) (a : list float),
    (List.length a <= k1)%nat -> (List.length a <= k2)%nat ->
    Np.pairwise_sum k1 a = Np.pairwise_sum k2 a.
Proof.
  induction k1 as [| k1 IH]; intros k2 a H1 H2.
  - destruct a; [| cbn in H1; lia]. now destruct k2.
  - destruct k2 as [| k2].
    + destruct a; [reflexivity | cbn in H2; lia].
    + cbn [Np.pairwise_sum].
      destruct (List.length a <? 8)%nat eqn:E8; [reflexivity |].
      destruct (List.length a <=? 128)%nat eqn:E128; [reflexivity |].
      apply Nat.ltb_ge in E8. apply Nat.leb_gt in E128.
      set (n2 := (List.length a / 2 - (List.length a / 2) mod 8)%nat).
      assert (Hn2 : (0 < n2 < List.length a)%nat).
      { unfold n2.
        pose proof (Nat.mod_upper_bound (List.length a / 2) 8).
        pose proof (Nat.div_lt (List.length a) 2).
        assert (64 <= List.length a / 2)%nat
          by (apply Nat.div_le_lower_bound; lia).
        lia. }
      f_equal; apply IH; rewrite ?length_firstn, ?length_skipn; lia.
Qed.

(** ** Every printed line: rules for the constructs of the program *)

Section AllLines.

Variable P : line -> Prop.

Lemma all_lines_ret {A : Type} (a : A) : all_lines P (ret a).
Proof. constructor. Qed.

Lemma all_lines_raise {A : Type} (e : exn) : all_lines P (@raise A e).
Proof. constructor. Qed.

Lemma all_lines_touch (a : access) : all_lines P (touch a).
Proof. constructor. Qed.

Lemma all_lines_lift {A : Type} (r : exn + A) : all_lines P (lift r).
Proof. destruct r; constructor. Qed.

Lemma all_lines_print (l : line) : P l -> all_lines P (print l).
Proof. intros H. repeat constructor. exact H. Qed.

Lemma all_lines_bind {A B : Type} (m : M A) (k : A -> M B) :
  all_lines P m -> (forall a, result m = inr a -> all_lines P (k a)) ->
  all_lines P (bind m k).
Proof.
  unfold all_lines. intros Hm Hk. rewrite printed_bind.
  apply Forall_app. split; [exact Hm |].
  destruct (result m) as [e | a]; [constructor | now apply Hk].
Qed.

Lemma all_lines_for {A : Type} (xs : list A) (body : A -> M unit) :
  (forall x, In x xs -> all_lines P (body x)) -> all_lines P (for_ xs body).
Proof.
  induction xs as [| x xs IH]; intros H; simpl.
  - apply all_lines_ret.
  - apply all_lines_bind; [apply H; now left |].
    intros _ _. apply IH. intros y Hy. apply H. now right.
Qed.

Lemma all_lines_getitem (o : obj) (p : string) : all_lines P (getitem o p).
Proof.
  unfold getitem. apply all_lines_bind; [apply all_lines_touch |].
  intros _ _. destruct (resolve (target o) p); constructor.
Qed.

Lemma all_lines_getattr (o : obj) (key : string) : all_lines P (getattr o key).
Proof.
  unfold getattr. apply all_lines_bind; [apply all_lines_touch |].
  intros _ _. destruct (assoc key (attrs_of (target o))); constructor.
Qed.

Lemma all_lines_slice_all (o : obj) : all_lines P (slice_all o).
Proof.
  unfold slice_all. destruct (target o) as [d | |]; try constructor.
  destruct (is_scalar d); constructor.
Qed.

Lemma all_lines_slice_column (c : nat) (o : obj) :
  all_lines P (slice_column c o).
Proof.
  unfold slice_column. apply all_lines_bind; [apply all_lines_slice_all |].
  intros. apply all_lines_lift.
Qed.

Lemma all_lines_open_file (fs : filesystem) (path : string) :
  all_lines P (open_file fs path).
Proof. unfold open_file. destruct (fs path); constructor. Qed.

End AllLines.

(** Decompose a goal [all_lines P m] along the structure of [m]; what
    remains are the obligations [P l] of the lines [m] prints. *)
Ltac all_lines_step :=
  match goal with
  | |- all_lines _ (bind _ _) => apply all_lines_bind; [| intros ? ?]
  | |- all_lines _ (for_ _ _) => apply all_lines_for; intros ? ?
  | |- all_lines _ (print _) => apply all_lines_print
  | |- all_lines _ (ret _) => apply all_lines_ret
  | |- all_lines _ (raise _) => apply all_lines_raise
  | |- all_lines _ (lift _) => apply all_lines_lift
  | |- all_lines _ (touch _) => apply all_lines_touch
  | |- all_lines _ (getitem _ _) => apply all_lines_getitem
  | |- all_lines _ (getattr _ _) => apply all_lines_getattr
  | |- all_lines _ (slice_all _) => apply all_lines_slice_all
  | |- all_lines _ (slice_column _ _) => apply all_lines_slice_column
  | |- all_lines _ (open_file _ _) => apply all_lines_open_file
  | |- all_lines _ (if ?b then _ else _) => destruct b
  | |- all_lines _ (match ?x with _ => _ end) => destruct x
  end.

Ltac all_lines_tac := repeat all_lines_step.

(** Unfold a straight-line computation and split on each test it makes,
    outermost first. *)
Ltac run_step :=
  match goal with
  | |- context [match ?x with _ => _ end] =>
      lazymatch x with
      | context [match _ with _ => _ end] => fail
      | _ => destruct x eqn:?
      end
  end.

(** ** Result rows *)

Lemma input_loads_no_status (f : obj) : all_lines no_status (input_loads f).
Proof. unfold input_loads. all_lines_tac; reflexivity. Qed.

Lemma base_case_no_status (f : obj) (li : dataset) :
  all_lines no_status (base_case f li).
Proof. unfold base_case. all_lines_tac; reflexivity. Qed.

Lemma contingency_definitions_no_status (f : obj) :
  all_lines no_status (contingency_definitions f).
Proof. unfold contingency_definitions. all_lines_tac; reflexivity. Qed.

Lemma redispatch_no_status (f : obj) : all_lines no_status (redispatch f).
Proof. unfold redispatch, redispatch_table. all_lines_tac; reflexivity. Qed.

(** A result row is printed exactly when [result_row] returns, and its
    status is the one of the stored flags. *)
Lemma result_row_statuses (f : node) (li : dataset) (names : list cell)
    (i : nat) :
  match result (result_row (root f) li names i) with
  | inr _ =>
      exists pf opf, flags f i = Some (pf, opf) /\
        statuses (printed (result_row (root f) li names i)) =
        [status (attr_eq1 pf) (attr_eq1 opf)]
  | inl _ => statuses (printed (result_row (root f) li names i)) = []
  end.
Proof.
  unfold result_row, flags, getitem, getattr, slice_all, lift, bind, touch,
    print, ret, raise, printed, result, trace, root.
  cbn [name target fst snd is_scalar].
  generalize (contingency_path i) as p; intros p.
  repeat (run_step; cbn [name target fst snd app lines statuses status_of is_scalar]);
    try reflexivity.
  all: eexists; eexists; split; [reflexivity |].
  all: unfold status; match goal with H : attr_eq1 _ = _ |- _ => now rewrite H end.
Qed.

Lemma nth_error_nil_some {A : Type} (k : nat) (x : A) :
  nth_error (@nil A) k = Some x -> False.
Proof. destruct k; discriminate. Qed.

(** The rows of the loop over [range(n_cont)], in order. *)
Lemma loop_statuses (f : node) (li : dataset) (names : list cell) (n : nat) :
  forall a k s,
    nth_error (statuses (printed
      (for_ (seq a n) (result_row (root f) li names)))) k = Some s ->
    exists pf opf, flags f (a + k) = Some (pf, opf) /\
      s = status (attr_eq1 pf) (attr_eq1 opf).
Proof.
  induction n as [| n IH]; intros a k s; simpl.
  - intros H. now apply nth_error_nil_some in H.
  - rewrite printed_bind, statuses_app.
    pose proof (result_row_statuses f li names a) as Hrow.
    destruct (result (result_row (root f) li names a)) as [e | []].
    + rewrite Hrow. simpl. intros H. now apply nth_error_nil_some in H.
    + destruct Hrow as (pf & opf & Hflags & ->). destruct k as [| k]; simpl.
      * intros [= <-]. exists pf, opf. now rewrite Nat.add_0_r.
      * intros H. apply IH in H. now rewrite Nat.add_succ_r.
Qed.

(** When the loop returns, it printed one row per contingency. *)
Lemma loop_complete (f : node) (li : dataset) (names : list cell) (n : nat) :
  forall a,
    result (for_ (seq a n) (result_row (root f) li names)) = inr tt ->
    List.length (statuses (printed
      (for_ (seq a n) (result_row (root f) li names)))) = n.
Proof.
  induction n as [| n IH]; intros a; simpl; [reflexivity |].
  rewrite result_bind, printed_bind, statuses_app, length_app.
  pose proof (result_row_statuses f li names a) as Hrow.
  destruct (result (result_row (root f) li names a)) as [e | []];
    [discriminate |].
  destruct Hrow as (pf & opf & _ & ->). intros H. simpl. now rewrite IH.
Qed.

Lemma post_contingency_statuses (f : node) (li : dataset) (n : attr)
    (names : list cell) (k : nat) (s : string) :
  nth_error (statuses (printed (post_contingency (root f) li n names))) k
    = Some s ->
  exists pf opf, flags f k = Some (pf, opf) /\
    s = status (attr_eq1 pf) (attr_eq1 opf).
Proof.
  unfold post_contingency. repeat rewrite printed_bind. simpl.
  destruct (attr_range n) as [e | r] eqn:Hr; simpl.
  - intros H. now apply nth_error_nil_some in H.
  - destruct n; try discriminate. injection Hr as <-.
    intros H. now apply loop_statuses in H.
Qed.

(** The result rows of a summary are those of the post-contingency loop,
    so row [k] shows the status of the flags of contingency [k + 1]. *)
Lemma summarize_statuses (f : node) (k : nat) (s : string) :
  nth_error (statuses (printed (summarize (root f)))) k = Some s ->
  exists pf opf, flags f k = Some (pf, opf) /\
    s = status (attr_eq1 pf) (attr_eq1 opf).
Proof.
  unfold summarize.
  rewrite printed_bind, statuses_app,
    (statuses_nil _ (input_loads_no_status (root f))).
  destruct (result (input_loads (root f))) as [e | li]; simpl;
    [intros H; now apply nth_error_nil_some in H |].
  rewrite printed_bind, statuses_app,
    (statuses_nil _ (base_case_no_status (root f) li)).
  destruct (result (base_case (root f) li)) as [e | []]; simpl;
    [intros H; now apply nth_error_nil_some in H |].
  rewrite printed_bind, statuses_app,
    (statuses_nil _ (contingency_definitions_no_status (root f))).
  destruct (result (contingency_definitions (root f))) as [e | [n names]];
    simpl; [intros H; now apply nth_error_nil_some in H |].
  rewrite printed_bind, statuses_app.
  destruct (result (post_contingency (root f) li n names)) as [e | []].
  - rewrite app_nil_r. apply post_contingency_statuses.
  - rewrite printed_bind, statuses_app,
      (statuses_nil _ (redispatch_no_status (root f))).
    destruct (result (redispatch (root f))) as [e | []]; simpl;
      rewrite app_nil_r; apply post_contingency_statuses.
Qed.

Lemma read_scenario_statuses (fs : filesystem) (path : string) (f : node)
    (k : nat) (s : string) :
  fs path = Some f ->
  nth_error (statuses (printed (read_scenario fs path))) k = Some s ->
  exists pf opf, flags f k = Some (pf, opf) /\
    s = status (attr_eq1 pf) (attr_eq1 opf).
Proof.
  intros Hf. unfold read_scenario, open_file. rewrite Hf.
  repeat rewrite printed_bind. simpl. apply summarize_statuses.
Qed.

(** C2. For every contingency [k + 1] of the file, the status text of its
    row in the table of post-contingency results (row [k], counted from 0)
    is one of the four texts and nothing else; with the two stored flags
    [pf], [opf] in {0, 1} it is "BOTH FAIL" iff both are 0,
    "PF OK, OPF FAIL" iff [pf = 1] and [opf = 0], "OPF OK" iff [pf = 0] and
    [opf = 1], and "PF+OPF OK" iff both are 1. *)
Theorem result_row_status (fs : filesystem) (path : string) (f : node)
    (k : nat) (s : string) :
  fs path = Some f ->
  nth_error (statuses (printed (read_scenario fs path))) k = Some s ->
  (s = "BOTH FAIL" \/ s = "PF OK, OPF FAIL" \/ s = "OPF OK"
   \/ s = "PF+OPF OK") /\
  forall pf opf : Z,
    flags f k = Some (AInt pf, AInt opf) ->
    (pf = 0 \/ pf = 1)%Z -> (opf = 0 \/ opf = 1)%Z ->
    (s = "BOTH FAIL" <-> pf = 0%Z /\ opf = 0%Z) /\
    (s = "PF OK, OPF FAIL" <-> pf = 1%Z /\ opf = 0%Z) /\
    (s = "OPF OK" <-> pf = 0%Z /\ opf = 1%Z) /\
    (s = "PF+OPF OK" <-> pf = 1%Z /\ opf = 1%Z).
Proof.
  intros Hf Hs.
  destruct (read_scenario_statuses fs path f k s Hf Hs)
    as (a & b & Hflags & ->).
  split.
  - unfold status, status_ok, status_fail.
    destruct (attr_eq1 a), (attr_eq1 b); auto.
  - intros pf opf Hflags'. rewrite Hflags in Hflags'.
    injection Hflags' as -> ->.
    intros [-> | ->] [-> | ->]; cbn;
      intuition (discriminate || reflexivity).
Qed.

(** ** What a returned value tells *)

Lemma getitem_returns (o o' : obj) (p : string) :
  result (getitem o p) = inr o' ->
  resolve (target o) p = Some (target o') /\ name o' = join (name o) p.
Proof.
  unfold getitem. rewrite result_bind. simpl.
  destruct (resolve (target o) p); [| discriminate].
  intros [= <-]. split; reflexivity.
Qed.

Lemma slice_all_returns (o : obj) (d : dataset) :
  result (slice_all o) = inr d -> target o = Dataset d.
Proof.
  unfold slice_all. destruct (target o) as [d' | |]; try discriminate.
  destruct (is_scalar d'); [discriminate |]. now intros [= <-].
Qed.

Lemma lift_returns {A : Type} (r : exn + A) (a : A) :
  result (lift r) = inr a -> r = inr a.
Proof. destruct r; [discriminate |]. now intros [= <-]. Qed.

Lemma index_returns {A : Type} (xs : list A) (i : nat) (x : A) :
  index xs i = inr x -> nth_error xs i = Some x.
Proof.
  unfold index. destruct (nth_error xs i); [| discriminate].
  now intros [= <-].
Qed.

(** ** The catalog of contingencies *)

Lemma contingency_definitions_labels (f : node) (ts : list Z) :
  resolve f "contingencies/types" = Some (Dataset (IntVec ts)) ->
  all_lines (catalog_label_ok ts) (contingency_definitions (root f)).
Proof.
  intros Hts. unfold contingency_definitions.
  all_lines_tac; try exact I.
  repeat match goal with
  | H : result (getitem _ _) = inr _ |- _ => apply getitem_returns in H; destruct H as [H _]
  | H : result (slice_all _) = inr _ |- _ => apply slice_all_returns in H
  | H : result (lift _) = inr _ |- _ => apply lift_returns in H
  end.
  cbn [root target is_scalar] in *.
  match goal with
  | H : resolve f "contingencies/types" = Some (target ?o),
    H' : target ?o = Dataset ?d |- _ =>
      rewrite H', Hts in H; injection H as <-
  end.
  cbn [elements] in *.
  match goal with
  | H : index (map CInt ts) ?i = inr ?t |- _ =>
      apply index_returns in H; rewrite nth_error_map in H;
      destruct (nth_error ts i) as [code |] eqn:Hcode; [| discriminate];
      injection H as <-
  end.
  match goal with
  | H : cell_eq0 (CInt _) = inr _ |- _ => injection H as <-
  end.
  exists code. split; [| reflexivity].
  now rewrite Nat.add_sub.
Qed.

Lemma read_scenario_labels (fs : filesystem) (path : string) (f : node)
    (ts : list Z) :
  fs path = Some f ->
  resolve f "contingencies/types" = Some (Dataset (IntVec ts)) ->
  all_lines (catalog_label_ok ts) (read_scenario fs path).
Proof.
  intros Hf Hts.
  unfold read_scenario, open_file. rewrite Hf.
  unfold summarize, input_loads, base_case, post_contingency, result_row,
    redispatch, redispatch_table.
  all_lines_tac; try exact I.
  match goal with
  | H : result (ret _) = inr _ |- _ => injection H as <-
  end.
  now apply contingency_definitions_labels.
Qed.

(** C10. In the catalog of contingencies the type label of a line is
    "LINE" iff the type code stored for that contingency equals 0; every
    other code, not only 1, is shown as "GEN". *)
Theorem catalog_type_label (fs : filesystem) (path : string) (f : node)
    (ts : list Z) (idx : nat) (nm id : cell) (lbl : string) :
  fs path = Some f ->
  resolve f "contingencies/types" = Some (Dataset (IntVec ts)) ->
  In (CatalogLine idx nm lbl id) (printed (read_scenario fs path)) ->
  exists code : Z,
    nth_error ts (idx - 1) = Some code /\
    (lbl = "LINE" <-> code = 0%Z) /\
    (code <> 0%Z -> lbl = "GEN").
Proof.
  intros Hf Hts Hin.
  pose proof (read_scenario_labels fs path f ts Hf Hts) as Hall.
  unfold all_lines in Hall. rewrite Forall_forall in Hall.
  apply Hall in Hin. simpl in Hin. destruct Hin as (code & Hcode & ->).
  exists code. split; [exact Hcode |].
  unfold type_str. destruct (Z.eqb_spec code 0) as [-> | Hne].
  - split; [tauto | intros H; now elim H].
  - split; [split; [discriminate | intros H; now elim Hne] | reflexivity].
Qed.

Lemma catalog_type_label_witness :
  exists code : Z,
    nth_error [0; 1]%Z (2 - 1) = Some code /\
    ("GEN" = "LINE" <-> code = 0%Z) /\
    (code <> 0%Z -> "GEN" = "GEN").
Proof.
  apply (catalog_type_label (Sample.disk "s.h5" Sample.valid) "s.h5"
           Sample.valid [0; 1]%Z 2 (CText "GEN_3") (CText "G3") "GEN");
    [reflexivity | reflexivity | vm_compute; tauto].
Defined.

Lemma result_row_status_witness :
  ("PF OK, OPF FAIL" = "BOTH FAIL" \/
   "PF OK, OPF FAIL" = "PF OK, OPF FAIL" \/
   "PF OK, OPF FAIL" = "OPF OK" \/ "PF OK, OPF FAIL" = "PF+OPF OK") /\
  forall pf opf : Z,
    flags Sample.valid 1 = Some (AInt pf, AInt opf) ->
    (pf = 0 \/ pf = 1)%Z -> (opf = 0 \/ opf = 1)%Z ->
    ("PF OK, OPF FAIL" = "BOTH FAIL" <-> pf = 0%Z /\ opf = 0%Z) /\
    ("PF OK, OPF FAIL" = "PF OK, OPF FAIL" <-> pf = 1%Z /\ opf = 0%Z) /\
    ("PF OK, OPF FAIL" = "OPF OK" <-> pf = 0%Z /\ opf = 1%Z) /\
    ("PF OK, OPF FAIL" = "PF+OPF OK" <-> pf = 1%Z /\ opf = 1%Z).
Proof.
  apply (result_row_status (Sample.disk "s.h5" Sample.valid) "s.h5"
           Sample.valid 1 "PF OK, OPF FAIL"); reflexivity.
Defined.

(** ** The base case *)

Lemma column_table (c ncols : nat) (rows : list (list float)) :
  (c < ncols)%nat ->
  column c (Table ncols rows) = inr (col c rows).
Proof.
  intros H. unfold column. apply Nat.ltb_lt in H. now rewrite H.
Qed.

(** The run of [input_loads] on a table of loads with at least the two
    demand columns. *)
Lemma input_loads_run (f : node) (nl : nat) (li : list (list float)) :
  resolve f "grid/nodes/load" = Some (Dataset (Table nl li)) ->
  (2 <= nl)%nat ->
  input_loads (root f) =
  ([Access (Obj "grid/nodes/load");
    Print (InputLoads (Table nl li));
    Print Columns;
    Print (TotalP (Np.sum (col 0 li)));
    Print (TotalQ (Np.sum (col 1 li)))],
   inr (Table nl li)).
Proof.
  intros Hli Hnl. unfold input_loads, getitem, slice_all.
  cbn [root name target join bind touch is_scalar]. rewrite Hli.
  cbn [bind ret target print app lift is_scalar].
  rewrite !column_table by lia. reflexivity.
Qed.





(** ** Redispatch *)

Lemma where_from_spec (mask : list bool) :
  forall i k,
    In k (where_from i mask) <->
    exists j, k = (i + j)%nat /\ nth_error mask j = Some true.
Proof.
  induction mask as [| b mask IH]; intros i k; simpl.
  - split; [tauto | intros (j & _ & H); destruct j; discriminate].
  - assert (Hrec : In k (where_from (S i) mask) <->
                   exists j, k = (i + S j)%nat /\ nth_error mask j = Some true).
    { rewrite IH. split; intros (j & -> & H); exists j; split;
        [lia | exact H | lia | exact H]. }
    destruct b; simpl; rewrite ?Hrec; split.
    + intros [<- | (j & -> & H)];
        [exists 0%nat; split; [lia | reflexivity] | exists (S j); auto].
    + intros ([| j] & -> & H); [left; lia | right; eauto].
    + intros (j & -> & H). exists (S j); auto.
    + intros ([| j] & -> & H); [discriminate | eauto].
Qed.

Lemma where_spec (mask : list bool) (k : nat) :
  In k (where_ mask) <-> nth_error mask k = Some true.
Proof.
  unfold where_. rewrite where_from_spec. split.
  - now intros (j & -> & H).
  - intros H. now exists k.
Qed.

Lemma any_where (mask : list bool) :
  any mask = false <-> where_ mask = [].
Proof.
  unfold any, where_. generalize 0%nat.
  induction mask as [| b mask IH]; intros i; simpl; [tauto |].
  destruct b; simpl; [split; discriminate | apply IH].
Qed.

Lemma index_nth {A : Type} (xs : list A) (i : nat) (d : A) :
  (i < List.length xs)%nat -> index xs i = inr (nth i xs d).
Proof.
  intros H. unfold index.
  destruct (nth_error xs i) as [x |] eqn:E.
  - now rewrite (nth_error_nth xs i d E).
  - apply nth_error_None in E. lia.
Qed.

(** The loop over the significant generators prints one row each. *)
Lemma redispatch_rows (b c d : list float) (xs : list nat) :
  (forall i, In i xs ->
     (i < List.length b /\ i < List.length c /\ i < List.length d)%nat) ->
  let body := fun i : nat =>
    bv <- lift (index b i) ;;
    cv <- lift (index c i) ;;
    dv <- lift (index d i) ;;
    print (RedispatchRow (i + 1) bv cv dv) in
  printed (for_ xs body) =
    map (fun i => RedispatchRow (i + 1) (nth i b 0%float) (nth i c 0%float)
                                (nth i d 0%float)) xs
  /\ result (for_ xs body) = inr tt.
Proof.
  intros H body.
  induction xs as [| i xs IH]; simpl; [split; reflexivity |].
  rewrite printed_bind, result_bind.
  destruct (H i (or_introl eq_refl)) as (Hb & Hc & Hd).
  assert (Hbody : body i = ([Print (RedispatchRow (i + 1) (nth i b 0%float)
                                      (nth i c 0%float) (nth i d 0%float))], inr tt)).
  { unfold body.
    rewrite (index_nth b i 0%float Hb), (index_nth c i 0%float Hc),
      (index_nth d i 0%float Hd). reflexivity. }
  rewrite Hbody. cbn [printed result trace fst snd lines app].
  destruct IH as [IHp IHr]; [intros j Hj; apply H; now right |].
  rewrite IHp, IHr. split; reflexivity.
Qed.

(** What [redispatch_table] prints for arrays of one length: the header
    and a row per significant generator, or the notice. *)
Lemma redispatch_table_lines (b c d : list float) :
  List.length c = List.length b -> List.length d = List.length b ->
  printed (redispatch_table b c d) =
    (if any (map is_significant d) then
       RedispatchHeader
       :: map (fun i => RedispatchRow (i + 1) (nth i b 0%float) (nth i c 0%float)
                                      (nth i d 0%float))
              (where_ (map is_significant d))
     else [NoRedispatch])
  /\ result (redispatch_table b c d) = inr tt.
Proof.
  intros Hc Hd. unfold redispatch_table.
  destruct (any (map is_significant d)); [| split; reflexivity].
  rewrite printed_bind, result_bind.
  cbn [printed result trace fst snd lines app print].
  destruct (redispatch_rows b c d (where_ (map is_significant d)))
    as [Hp Hr].
  - intros i Hi. apply where_spec in Hi.
    assert (i < List.length (map is_significant d))%nat
      by (apply nth_error_Some; congruence).
    rewrite length_map in *. lia.
  - cbv zeta in Hp, Hr. rewrite Hp, Hr. split; reflexivity.
Qed.

Lemma zip_sub_length (a b : list float) :
  List.length a = List.length b -> List.length (zip_sub a b) = List.length b.
Proof.
  intros H. unfold zip_sub. rewrite length_map, length_combine. lia.
Qed.

Lemma zip_sub_nth (a : list float) :
  forall (b : list float) (g : nat) (x y : float),
    nth_error a g = Some x -> nth_error b g = Some y ->
    nth g (zip_sub a b) 0%float = (x - y)%float.
Proof.
  induction a as [| a0 a IH]; intros [| b0 b] [| g] x y Ha Hb;
    try discriminate; simpl in *.
  - now injection Ha as <-; injection Hb as <-.
  - now apply IH.
Qed.

(** The run of [redispatch] on two generator tables of one length. *)
Lemma redispatch_lines (f : node) (nb : nat) (base : list (list float))
    (nc : nat) (cont : list (list float)) :
  resolve f "base_solution/opf/nodes/generator"
    = Some (Dataset (Table nb base)) ->
  (1 <= nb)%nat ->
  resolve f "post_contingency/contingency_000001/opf/nodes/generator"
    = Some (Dataset (Table nc cont)) ->
  (1 <= nc)%nat ->
  List.length cont = List.length base ->
  printed (redispatch (root f)) =
    ([Dashes; RedispatchTitle; DashRule]
     ++ printed (redispatch_table (col 0 base) (col 0 cont)
                   (zip_sub (col 0 cont) (col 0 base))))%list.
Proof.
  intros Hbase Hnb Hcont Hnc Hlen.
  unfold redispatch, getitem, slice_all.
  cbn [root name target join bind touch print is_scalar]. rewrite Hbase, Hcont.
  cbn [bind ret target app lift is_scalar].
  rewrite !column_table by lia.
  cbn [bind ret app lift].
  unfold broadcast_sub. unfold col at 1 2.
  rewrite !length_map, Hlen, Nat.eqb_refl.
  cbn [bind ret app lift].
  destruct (redispatch_table _ _ _) as [t r]. reflexivity.
Qed.

(** When the summary completes, its last lines are those of the
    redispatch and the closing rule; nothing before belongs to the
    redispatch table. *)
Lemma read_scenario_success_lines (fs : filesystem) (path : string)
    (f : node) :
  fs path = Some f ->
  result (read_scenario fs path) = inr tt ->
  exists pre : list line,
    printed (read_scenario fs path) =
      (pre ++ printed (redispatch (root f)) ++ [Footer])%list
    /\ Forall not_redispatch pre.
Proof.
  intros Hf. unfold read_scenario, open_file. rewrite Hf.
  repeat rewrite result_bind, printed_bind.
  cbn [printed result trace fst snd lines app print ret].
  unfold summarize.
  rewrite result_bind, printed_bind.
  assert (H1 : all_lines not_redispatch (input_loads (root f)))
    by (unfold input_loads; all_lines_tac; exact (fun x => x)).
  destruct (result (input_loads (root f))) as [e | li]; [discriminate |].
  rewrite result_bind, printed_bind.
  assert (H2 : all_lines not_redispatch (base_case (root f) li))
    by (unfold base_case; all_lines_tac; exact (fun x => x)).
  destruct (result (base_case (root f) li)) as [e | []]; [discriminate |].
  rewrite result_bind, printed_bind.
  assert (H3 : all_lines not_redispatch (contingency_definitions (root f)))
    by (unfold contingency_definitions; all_lines_tac; exact (fun x => x)).
  destruct (result (contingency_definitions (root f))) as [e | [n names]];
    [discriminate |].
  rewrite result_bind, printed_bind.
  assert (H4 : all_lines not_redispatch
                 (post_contingency (root f) li (fst (n, names))
                    (snd (n, names))))
    by (unfold post_contingency, result_row; all_lines_tac;
        exact (fun x => x)).
  destruct (result (post_contingency (root f) li (fst (n, names))
                      (snd (n, names)))) as [e | []]; [discriminate |].
  rewrite result_bind, printed_bind.
  destruct (result (redispatch (root f))) as [e | []]; [discriminate |].
  intros _.
  exists ([Rule; Reading path; Rule]
          ++ printed (input_loads (root f))
          ++ printed (base_case (root f) li)
          ++ printed (contingency_definitions (root f))
          ++ printed (post_contingency (root f) li n names))%list.
  split.
  - cbn [printed trace fst snd lines print app].
    repeat rewrite <- app_assoc. reflexivity.
  - repeat (apply Forall_app; split); try assumption.
    repeat constructor; exact (fun x => x).
Qed.

(** The redispatch entries of a completed summary are those of the table
    printed for the two generator columns. *)
Lemma redispatch_entries (fs : filesystem) (path : string) (f : node)
    (nb : nat) (base : list (list float)) (nc : nat) (cont : list (list float)) :
  fs path = Some f ->
  result (read_scenario fs path) = inr tt ->
  resolve f "base_solution/opf/nodes/generator"
    = Some (Dataset (Table nb base)) ->
  (1 <= nb)%nat ->
  resolve f "post_contingency/contingency_000001/opf/nodes/generator"
    = Some (Dataset (Table nc cont)) ->
  (1 <= nc)%nat ->
  List.length cont = List.length base ->
  forall l, is_redispatch_entry l ->
    (In l (printed (read_scenario fs path)) <->
     In l (if any (map is_significant (zip_sub (col 0 cont) (col 0 base)))
           then
             map (fun i => RedispatchRow (i + 1) (nth i (col 0 base) 0%float)
                   (nth i (col 0 cont) 0%float)
                   (nth i (zip_sub (col 0 cont) (col 0 base)) 0%float))
               (where_ (map is_significant
                          (zip_sub (col 0 cont) (col 0 base))))
           else [NoRedispatch])).
Proof.
  intros Hf Hok Hbase Hnb Hcont Hnc Hlen l Hl.
  destruct (read_scenario_success_lines fs path f Hf Hok)
    as (pre & -> & Hpre).
  rewrite (redispatch_lines f nb base nc cont Hbase Hnb Hcont Hnc Hlen).
  assert (Hc : List.length (col 0 cont) = List.length (col 0 base))
    by (unfold col; now rewrite !length_map).
  destruct (redispatch_table_lines (col 0 base) (col 0 cont)
              (zip_sub (col 0 cont) (col 0 base)) Hc
              (zip_sub_length _ _ Hc)) as [-> _].
  rewrite Forall_forall in Hpre.
  rewrite !in_app_iff. split.
  - intros [H | [[H | H] | H]].
    + now apply Hpre in H.
    + simpl in H. destruct H as [<- | [<- | [<- | []]]]; elim Hl.
    + destruct (any _); [| exact H].
      destruct H as [<- | H]; [elim Hl | exact H].
    + destruct H as [<- | []]. elim Hl.
  - intros H. right. left. right.
    destruct (any _); [right |]; exact H.
Qed.

(** C3. In the redispatch between the base case and contingency 1 of a
    completed summary, generator [g] (row number [g + 1]) has a row in
    the table iff the absolute difference of its active power in
    contingency 1 and in the base case exceeds 0.01, the row showing both
    values and their difference; and the table has no row iff the notice
    "No significant redispatch" is printed instead. The difference and
    the comparison are those of binary64, as numpy computes them. *)
Theorem redispatch_significance (fs : filesystem) (path : string) (f : node)
    (nb : nat) (base : list (list float)) (nc : nat) (cont : list (list float)) :
  fs path = Some f ->
  result (read_scenario fs path) = inr tt ->
  resolve f "base_solution/opf/nodes/generator"
    = Some (Dataset (Table nb base)) ->
  (1 <= nb)%nat ->
  resolve f "post_contingency/contingency_000001/opf/nodes/generator"
    = Some (Dataset (Table nc cont)) ->
  (1 <= nc)%nat ->
  List.length cont = List.length base ->
  (forall (g : nat) (b c : float),
     nth_error (col 0 base) g = Some b ->
     nth_error (col 0 cont) g = Some c ->
     (In (RedispatchRow (g + 1) b c (c - b))
         (printed (read_scenario fs path))
      <-> (0.01 <? abs (c - b))%float = true) /\
     (forall b' c' d' : float,
        In (RedispatchRow (g + 1) b' c' d')
           (printed (read_scenario fs path)) ->
        b' = b /\ c' = c /\ d' = (c - b)%float)) /\
  ((forall (idx : nat) (b c d : float),
      ~ In (RedispatchRow idx b c d) (printed (read_scenario fs path)))
   <-> In NoRedispatch (printed (read_scenario fs path))).
Proof.
  intros Hf Hok Hbase Hnb Hcont Hnc Hlen.
  pose proof (redispatch_entries fs path f nb base nc cont
                Hf Hok Hbase Hnb Hcont Hnc Hlen) as Hent.
  set (dpg := zip_sub (col 0 cont) (col 0 base)) in *.
  set (mask := map is_significant dpg) in *.
  assert (Hrow : forall k b c d,
            In (RedispatchRow k b c d) (printed (read_scenario fs path)) <->
            exists i, nth_error mask i = Some true /\ k = (i + 1)%nat /\
              b = nth i (col 0 base) 0%float /\ c = nth i (col 0 cont) 0%float /\
              d = nth i dpg 0%float).
  { intros k b c d. rewrite (Hent (RedispatchRow k b c d) I).
    destruct (any mask) eqn:Hany.
    - rewrite in_map_iff. split.
      + intros (i & [= <- <- <- <-] & Hi). apply where_spec in Hi.
        exists i. auto.
      + intros (i & Hi & -> & -> & -> & ->). exists i.
        split; [reflexivity | now apply where_spec].
    - apply any_where in Hany. split.
      + intros [H | []]. discriminate H.
      + intros (i & Hi & _). apply where_spec in Hi.
        rewrite Hany in Hi. destruct Hi. }
  split.
  - intros g b c Hb Hc.
    assert (Hd : nth g dpg 0%float = (c - b)%float)
      by (apply zip_sub_nth; assumption).
    change (0.01 <? abs (c - b))%float with (is_significant (c - b)).
    assert (Hmask : nth_error mask g = Some true
                    <-> is_significant (c - b) = true).
    { unfold mask. rewrite nth_error_map, <- Hd.
      assert (Hg : (g < List.length dpg)%nat).
      { unfold dpg. rewrite zip_sub_length.
        - apply nth_error_Some. congruence.
        - unfold col. now rewrite !length_map. }
      destruct (nth_error dpg g) as [d |] eqn:E.
      - rewrite (nth_error_nth dpg g 0%float E). simpl.
        split; [now intros [= ->] | now intros ->].
      - apply nth_error_None in E. lia. }
    split.
    + rewrite Hrow, <- Hmask. split.
      * intros (i & Hi & Hk & _). now replace g with i by lia.
      * intros Hg. exists g.
        rewrite (nth_error_nth _ _ 0%float Hb), (nth_error_nth _ _ 0%float Hc), Hd.
        auto.
    + intros b' c' d' Hin. apply Hrow in Hin.
      destruct Hin as (i & _ & Hk & -> & -> & ->).
      replace i with g by lia.
      rewrite (nth_error_nth _ _ 0%float Hb), (nth_error_nth _ _ 0%float Hc), Hd.
      auto.
  - rewrite (Hent NoRedispatch I). destruct (any mask) eqn:Hany.
    + split.
      * intros Hno. exfalso.
        destruct (where_ mask) as [| i w] eqn:Hw;
          [apply any_where in Hw; congruence |].
        assert (Hi : In i (where_ mask)) by (rewrite Hw; now left).
        apply where_spec in Hi.
        eapply Hno. apply Hrow. exists i. eauto.
      * rewrite in_map_iff. intros (i & Habs & _). discriminate Habs.
    + split; [intros _; now left |].
      intros _ idx b c d Hin. apply Hrow in Hin.
      destruct Hin as (i & Hi & _). apply where_spec in Hi.
      apply any_where in Hany. rewrite Hany in Hi. destruct Hi.
Qed.

Lemma redispatch_significance_witness :
  In (RedispatchRow 1 30 30.5 0.5)
     (printed (read_scenario (Sample.disk "s.h5" Sample.network) "s.h5")) /\
  ~ In (RedispatchRow 2 10 10.005 (10.005 - 10))
       (printed (read_scenario (Sample.disk "s.h5" Sample.network) "s.h5")) /\
  ~ In (RedispatchRow 3 0 0.01 0.01)
       (printed (read_scenario (Sample.disk "s.h5" Sample.network) "s.h5")).
Proof.
  pose proof (redispatch_significance
                (Sample.disk "s.h5" Sample.network) "s.h5" Sample.network
                1 [[30]; [10]; [0]; [5]]%float
                1 [[30.5]; [10.005]; [0.01]; [4]]%float
                eq_refl eq_refl eq_refl (le_n 1) eq_refl (le_n 1) eq_refl)
    as [H _].
  split; [| split].
  - apply (proj1 (H 0%nat 30%float 30.5%float eq_refl eq_refl)).
    reflexivity.
  - intros Hin.
    apply (proj1 (H 1%nat 10%float 10.005%float eq_refl eq_refl)) in Hin.
    discriminate Hin.
  - intros Hin.
    apply (proj1 (H 2%nat 0%float 0.01%float eq_refl eq_refl)) in Hin.
    discriminate Hin.
Defined.

(** ** Walking and resolving *)

(** Induction on a node with the hypothesis for every child. *)
Section NodeInduction.

Variable P : node -> Prop.
Hypothesis P_dataset : forall d, P (Dataset d).
Hypothesis P_group :
  forall attrs children,
    Forall (fun nc => P (snd nc)) children -> P (Group attrs children).
Hypothesis P_dangling : P Dangling.

Fixpoint node_induction (n : node) : P n :=
  match n with
  | Dataset d => P_dataset d
  | Group attrs children =>
      P_group attrs children
        ((fix go (l : list (string * node))
            : Forall (fun nc => P (snd nc)) l :=
            match l with
            | [] => Forall_nil _
            | nc :: l' => Forall_cons nc (node_induction (snd nc)) (go l')
            end) children)
  | Dangling => P_dangling
  end.

End NodeInduction.

(** Iteration by name yields the same entries. *)
Lemma in_insert_by_name {A : Type} (x y : string * A)
    (l : list (string * A)) :
  In y (insert_by_name x l) <-> y = x \/ In y l.
Proof.
  induction l as [| z l IH]; simpl.
  - intuition congruence.
  - destruct (String.leb (fst x) (fst z)); simpl; [intuition congruence |].
    rewrite IH. intuition congruence.
Qed.

Lemma in_by_name {A : Type} (x : string * A) (l : list (string * A)) :
  In x (by_name l) <-> In x l.
Proof.
  induction l as [| y l IH]; simpl; [tauto |].
  rewrite in_insert_by_name, IH. intuition congruence.
Qed.

Lemma length_insert_by_name {A : Type} (x : string * A)
    (l : list (string * A)) :
  List.length (insert_by_name x l) = S (List.length l).
Proof.
  induction l as [| z l IH]; simpl; [reflexivity |].
  destruct (String.leb (fst x) (fst z)); simpl; [reflexivity |].
  now rewrite IH.
Qed.

Lemma length_by_name {A : Type} (l : list (string * A)) :
  List.length (by_name l) = List.length l.
Proof.
  induction l as [| y l IH]; simpl; [reflexivity |].
  now rewrite length_insert_by_name, IH.
Qed.

(** What the walk of a group yields: every member that is an object,
    and what the walk of that member yields. *)
Lemma in_visit (prefix : string) (attrs : list (string * attr))
    (children : list (string * node)) (p : string) (nd : node) :
  In (p, nd) (visit prefix (Group attrs children)) <->
  exists (s : string) (c : node),
    In (s, c) children /\ c <> Dangling /\
    ((p, nd) = (join prefix s, c) \/ In (p, nd) (visit (join prefix s) c)).
Proof.
  cbn [visit]. rewrite in_concat. split.
  - intros (blk & Hblk & Hin). apply in_map_iff in Hblk.
    destruct Hblk as ([k blk'] & <- & Hk).
    apply (proj1 (in_by_name _ _)) in Hk.
    apply in_map_iff in Hk. destruct Hk as ([s c] & [= <- <-] & Hc).
    cbn [fst snd] in Hin. exists s, c. split; [exact Hc |].
    destruct c as [d | a ch |]; [| | destruct Hin].
    + split; [discriminate |]. destruct Hin as [<- | Hin]; auto.
    + split; [discriminate |]. destruct Hin as [<- | Hin]; auto.
  - intros (s & c & Hc & Hnd & Hin).
    exists (match c with
            | Dangling => []
            | _ => (join prefix s, c) :: visit (join prefix s) c
            end).
    split.
    + apply in_map_iff.
      exists (s, match c with
                 | Dangling => []
                 | _ => (join prefix s, c) :: visit (join prefix s) c
                 end).
      split; [reflexivity |]. apply in_by_name. apply in_map_iff.
      now exists (s, c).
    + destruct c as [d | a ch |]; [| | now elim Hnd];
        (destruct Hin as [-> | Hin]; [now left | now right]).
Qed.

Lemma split_slash_not_nil (p : string) : split_slash p <> [].
Proof.
  destruct p as [| c p]; simpl; [discriminate |].
  destruct (Ascii.eqb c "/"); [discriminate |].
  destruct (split_slash p); discriminate.
Qed.

(** [(a + "/" + b).split("/") = a.split("/") + b.split("/")]. *)
Lemma split_slash_app (a b : string) :
  split_slash (a ++ String "/" b) = (split_slash a ++ split_slash b)%list.
Proof.
  induction a as [| c a IH]; simpl; [reflexivity |].
  destruct (Ascii.eqb c "/"); rewrite IH; [reflexivity |].
  pose proof (split_slash_not_nil a) as Hne.
  destruct (split_slash a); [now elim Hne | reflexivity].
Qed.

Lemma split_slash_name (s : string) :
  count_slash s = 0%nat -> split_slash s = [s].
Proof.
  induction s as [| c s IH]; simpl; [reflexivity |].
  destruct (Ascii.eqb c "/"); [discriminate |].
  intros H. now rewrite (IH H).
Qed.

Lemma components_empty : components "" = [].
Proof. reflexivity. Qed.

Lemma valid_name_inv (s : string) :
  valid_name s = true ->
  nonempty s = true /\ count_slash s = 0%nat /\ is_dot s = false.
Proof.
  unfold valid_name. intros H.
  apply andb_true_iff in H. destruct H as [H Hdot].
  apply andb_true_iff in H. destruct H as [Hne Hs].
  apply Nat.eqb_eq in Hs. apply negb_true_iff in Hdot. auto.
Qed.

Lemma parts_name (s : string) :
  valid_name s = true -> parts s = [s].
Proof.
  intros H. apply valid_name_inv in H. destruct H as (Hne & Hs & _).
  unfold parts. rewrite (split_slash_name s Hs). simpl. now rewrite Hne.
Qed.

Lemma components_name (s : string) :
  valid_name s = true -> components s = [s].
Proof.
  intros H. unfold components. rewrite (parts_name s H).
  apply valid_name_inv in H. destruct H as (_ & _ & Hdot).
  simpl. now rewrite Hdot.
Qed.

(** The parts of a member's name: those of the group, then the member's
    own name. *)
Lemma parts_join (prefix s : string) :
  valid_name s = true ->
  parts (join prefix s) = (parts prefix ++ [s])%list.
Proof.
  intros H. destruct prefix as [| c prefix].
  - simpl join. now apply parts_name.
  - unfold join. change (String c prefix ++ "/" ++ s)
      with (String c prefix ++ String "/" s).
    unfold parts. rewrite split_slash_app, filter_app.
    f_equal. now apply parts_name.
Qed.

Lemma components_join (prefix s : string) :
  valid_name s = true ->
  components (join prefix s) = (components prefix ++ [s])%list.
Proof.
  intros H. unfold components. rewrite (parts_join prefix s H), filter_app.
  f_equal. apply valid_name_inv in H. destruct H as (_ & _ & Hdot).
  simpl. now rewrite Hdot.
Qed.

Lemma join_nonempty (prefix s : string) :
  nonempty s = true -> join prefix s <> "".
Proof.
  destruct prefix; simpl; [| discriminate].
  destruct s; [discriminate | discriminate].
Qed.

Lemma assoc_distinct {A : Type} (l : list (string * A)) (k : string) (v : A) :
  distinct (map fst l) = true -> In (k, v) l -> assoc k l = Some v.
Proof.
  induction l as [| [k' v'] l IH]; simpl; [tauto |].
  intros H. apply andb_true_iff in H. destruct H as [Hnew Hd].
  intros [[= -> ->] | Hin].
  - now rewrite String.eqb_refl.
  - destruct (String.eqb_spec k k') as [-> | _]; [| now apply IH].
    exfalso. apply negb_true_iff in Hnew.
    assert (existsb (String.eqb k') (map fst l) = true); [| congruence].
    apply existsb_exists. exists k'. split; [| apply String.eqb_refl].
    apply in_map_iff. now exists (k', v).
Qed.

Lemma assoc_in {A : Type} (l : list (string * A)) (k : string) (v : A) :
  assoc k l = Some v -> In (k, v) l.
Proof.
  induction l as [| [k' v'] l IH]; simpl; [discriminate |].
  destruct (String.eqb_spec k k') as [-> | _].
  - intros [= ->]. now left.
  - intros H. right. now apply IH.
Qed.


Lemma descend_nil (n : node) : n <> Dangling -> descend n [] = Some n.
Proof. destruct n; [reflexivity | reflexivity | intros H; now elim H]. Qed.

Lemma descend_app (segs : list string) :
  forall (n m : node) (rest : list string),
    descend n segs = Some m ->
    descend n (segs ++ rest) = descend m rest.
Proof.
  induction segs as [| s segs IH]; intros n m rest; simpl.
  - destruct n; [| | discriminate]; now intros [= <-].
  - destruct n as [d | attrs children |]; try discriminate.
    destruct (assoc s children) as [c |]; [| discriminate].
    apply IH.
Qed.

(** Every object the walk yields is found again by following the parts of
    its name, none of which is [.]. *)
Lemma visit_descend (n : node) :
  wf n = true ->
  forall (prefix p : string) (nd : node),
    In (p, nd) (visit prefix n) ->
    p <> "" /\
    exists rest, components p = (components prefix ++ rest)%list /\
      parts p = (parts prefix ++ rest)%list /\
      descend n rest = Some nd.
Proof.
  induction n as [d | attrs children IH |] using node_induction;
    intros Hwf prefix p nd Hin; [destruct Hin | | destruct Hin].
  simpl in Hwf. apply andb_true_iff in Hwf. destruct Hwf as [Hd Hall].
  rewrite forallb_forall in Hall. rewrite Forall_forall in IH.
  apply in_visit in Hin. destruct Hin as (s & c & Hc & Hobj & Hin).
  specialize (Hall _ Hc). simpl in Hall.
  apply andb_true_iff in Hall. destruct Hall as [Hs Hwfc].
  assert (Hassoc : assoc s children = Some c) by now apply assoc_distinct.
  destruct Hin as [[= -> ->] | Hin].
  - split.
    + apply join_nonempty. now apply valid_name_inv in Hs.
    + exists [s]. split; [now apply components_join |].
      split; [now apply parts_join |].
      simpl. rewrite Hassoc. now apply descend_nil.
  - destruct (IH _ Hc Hwfc _ _ _ Hin) as (Hp & rest & Hcomp & Hparts & Hrest).
    split; [exact Hp |].
    exists (s :: rest). split; [| split].
    + rewrite Hcomp, components_join by exact Hs.
      now rewrite <- app_assoc.
    + rewrite Hparts, parts_join by exact Hs.
      now rewrite <- app_assoc.
    + simpl. now rewrite Hassoc.
Qed.

(** Every object found below a node by a non-empty list of components is
    yielded by the walk, under the name that joins them. *)
Lemma descend_visit (segs : list string) :
  forall (n : node) (prefix s : string) (nd : node),
    descend n (s :: segs) = Some nd ->
    In (fold_left join (s :: segs) prefix, nd) (visit prefix n).
Proof.
  induction segs as [| s' segs IH]; intros n prefix s nd;
    destruct n as [d | attrs children |]; try discriminate;
    cbn [descend]; destruct (assoc s children) as [c |] eqn:Hc;
    try discriminate; intros Hnd; apply in_visit; exists s, c;
    (split; [now apply assoc_in |]).
  - split; [destruct c; [discriminate | discriminate | discriminate Hnd] |].
    left. cbn [fold_left]. destruct c; [| | discriminate Hnd];
      now injection Hnd as <-.
  - split; [destruct c; [discriminate | discriminate | discriminate Hnd] |].
    right. cbn [fold_left]. apply (IH c (join prefix s) s' nd Hnd).
Qed.

(** A path without the part [.] that leads to an object passes the
    membership test. *)
Lemma descend_path_valid (segs : list string) :
  forall n nd : node,
    Forall (fun s => is_dot s = false) segs ->
    descend n segs = Some nd -> path_valid n segs = true.
Proof.
  induction segs as [| s segs IH]; intros n nd Hdots; [reflexivity |].
  inversion Hdots as [| ? ? Hs Hrest]; subst. cbn [descend path_valid].
  rewrite Hs. destruct n as [d | attrs children |]; try discriminate.
  destruct (assoc s children) as [c |]; [| discriminate].
  destruct segs as [| s' segs]; [reflexivity |].
  intros Hnd. destruct c as [d | a ch |]; try discriminate Hnd.
  now apply (IH _ nd).
Qed.

(** The names the walk yields pass the membership test. *)
Lemma visit_contains (f : node) (p : string) (nd : node) :
  wf f = true -> In (p, nd) (visititems f) ->
  resolve f p = Some nd /\ contains (root f) p = true.
Proof.
  intros Hwf Hin.
  destruct (visit_descend f Hwf "" p nd Hin)
    as (Hp & rest & Hcomp & Hparts & Hd).
  rewrite components_empty in Hcomp. simpl in Hcomp, Hparts.
  unfold resolve, contains. destruct p as [| c p]; [now elim Hp |].
  rewrite Hcomp, Hparts. split; [exact Hd |]. cbn [root target is_scalar].
  apply (descend_path_valid rest f nd); [| exact Hd].
  unfold components in Hcomp. rewrite Hparts in Hcomp.
  apply Forall_forall. intros s Hs. rewrite <- Hcomp in Hs.
  apply filter_In in Hs. now apply negb_true_iff.
Qed.

(** C7. In a well-formed container every path yielded by the walk
    resolves, and to the object the walk yielded with it: the path reader
    never answers "not found" for it. Conversely every object a path
    resolves to, the root excepted, is yielded by the walk under the
    canonical spelling of that path: the two agree on what is
    addressable. *)
Theorem walk_resolve_agree (f : node) :
  wf f = true ->
  (forall (p : string) (nd : node),
     In (p, nd) (visititems f) -> resolve f p = Some nd) /\
  (forall (fs : filesystem) (path p : string) (nd : node),
     fs path = Some f -> In (p, nd) (visititems f) ->
     nth_error (printed (read_element fs path p)) 0 = Some (ElemPath p)) /\
  (forall (p : string) (nd : node),
     resolve f p = Some nd -> components p <> [] ->
     In (canonical p, nd) (visititems f)).
Proof.
  intros Hwf.
  split; [intros p nd Hin; now apply visit_contains |]. split.
  - intros fs path p nd Hf Hin.
    destruct (visit_contains f p nd Hwf Hin) as [Hres Hc].
    unfold read_element, open_file. rewrite Hf.
    cbn [bind ret app]. rewrite Hc. cbn [negb].
    unfold getitem. cbn [root name target join bind touch app is_scalar].
    rewrite Hres. cbn [bind ret print app].
    now destruct (match nd with Dataset _ => _ | _ => _ end).
  - intros p nd Hr Hne. unfold resolve in Hr.
    destruct p as [| c p]; [discriminate |].
    unfold canonical, visititems.
    destruct (components (String c p)) as [| s segs]; [now elim Hne |].
    now apply descend_visit.
Qed.

Lemma walk_resolve_agree_witness :
  resolve Sample.valid "base_solution/opf/nodes/generator"
  = Some (Dataset (Table 1 [[30]]%float)).
Proof.
  apply (proj1 (walk_resolve_agree Sample.valid eq_refl)).
  vm_compute. tauto.
Defined.

(** ** Failures *)

Lemma result_getitem (o : obj) (p : string) :
  result (getitem o p) =
  match resolve (target o) p with
  | Some n => inr (mkObj (join (name o) p) n)
  | None => inl (KeyError p)
  end.
Proof.
  unfold getitem. rewrite result_bind. simpl.
  destruct (resolve (target o) p); reflexivity.
Qed.

Lemma result_getattr (o : obj) (key : string) :
  result (getattr o key) =
  match assoc key (attrs_of (target o)) with
  | Some v => inr v
  | None => inl (KeyError key)
  end.
Proof.
  unfold getattr. rewrite result_bind. simpl.
  destruct (assoc key (attrs_of (target o))); reflexivity.
Qed.

Lemma accessed_getitem (o : obj) (p : string) :
  accessed (getitem o p) = [Obj (join (name o) p)].
Proof.
  unfold getitem. rewrite accessed_bind. simpl.
  destruct (resolve (target o) p); reflexivity.
Qed.

Lemma printed_getitem (o : obj) (p : string) : printed (getitem o p) = [].
Proof.
  unfold getitem. rewrite printed_bind. simpl.
  destruct (resolve (target o) p); reflexivity.
Qed.

Lemma accessed_getattr (o : obj) (key : string) :
  accessed (getattr o key) = [Attr (name o) key].
Proof.
  unfold getattr. rewrite accessed_bind. simpl.
  destruct (assoc key (attrs_of (target o))); reflexivity.
Qed.

Lemma printed_getattr (o : obj) (key : string) : printed (getattr o key) = [].
Proof.
  unfold getattr. rewrite printed_bind. simpl.
  destruct (assoc key (attrs_of (target o))); reflexivity.
Qed.

Lemma accessed_lift {A : Type} (r : exn + A) : accessed (lift r) = [].
Proof. destruct r; reflexivity. Qed.

Lemma printed_lift {A : Type} (r : exn + A) : printed (lift r) = [].
Proof. destruct r; reflexivity. Qed.

Lemma result_lift {A : Type} (r : exn + A) : result (lift r) = r.
Proof. destruct r; reflexivity. Qed.

Lemma result_print (l : line) : result (print l) = inr tt.
Proof. reflexivity. Qed.

(** A loop raises when its body raises for one of the elements, unless it
    raised before. *)
Lemma for_raises {A : Type} (body : A -> M unit) (xs : list A) (x : A) :
  In x xs -> (exists e, result (body x) = inl e) ->
  exists e, result (for_ xs body) = inl e.
Proof.
  induction xs as [| y xs IH]; intros Hin Hx; [destruct Hin |].
  simpl. rewrite result_bind. destruct Hin as [-> | Hin].
  - destruct Hx as [e ->]. eauto.
  - destruct (result (body y)) as [e | []]; eauto.
Qed.

Lemma index_out_of_range {A : Type} (xs : list A) (i : nat) :
  (List.length xs <= i)%nat -> index xs i = inl IndexError.
Proof.
  intros H. unfold index. apply nth_error_None in H. now rewrite H.
Qed.

(** The catalog loop raises when one of the parallel arrays is shorter
    than the declared count. *)
Lemma contingency_definitions_short (f g : node) (n : Z)
    (dt dn di : dataset) :
  resolve f "contingencies" = Some g ->
  assoc "count" (attrs_of g) = Some (AInt n) ->
  resolve f "contingencies/types" = Some (Dataset dt) ->
  resolve f "contingencies/names" = Some (Dataset dn) ->
  resolve f "contingencies/ids" = Some (Dataset di) ->
  (Z.of_nat (len dt) < n \/ Z.of_nat (len dn) < n
   \/ Z.of_nat (len di) < n)%Z ->
  exists e, result (contingency_definitions (root f)) = inl e.
Proof.
  intros Hg Hcount Ht Hn Hi Hshort.
  unfold contingency_definitions.
  repeat (rewrite ?result_bind, ?result_getitem, ?result_getattr,
            ?result_print, ?result_lift;
          cbn [root target name join attr_range is_scalar];
          rewrite ?Hg, ?Ht, ?Hn, ?Hi; cbn [target slice_all is_scalar];
          try (destruct (is_scalar _); [solve [cbn; eauto] |]);
          cbn [result snd ret];
          rewrite ?Hcount).
  match goal with
  | |- context [result (for_ ?xs ?body)] =>
      assert (Hloop : exists e, result (for_ xs body) = inl e)
  end.
  { unfold len in Hshort.
    destruct Hshort as [H | [H | H]].
    - apply for_raises with (x := List.length (elements dt)).
      + apply in_seq. lia.
      + rewrite result_bind, result_lift, index_out_of_range by lia. eauto.
    - apply for_raises with (x := List.length (elements dn)).
      + apply in_seq. lia.
      + rewrite result_bind, result_lift.
        destruct (index (elements dt) _) as [e | t]; [eauto |].
        rewrite result_bind, result_lift.
        destruct (cell_eq0 t) as [e | z]; [eauto |].
        rewrite result_bind, result_lift, index_out_of_range by lia. eauto.
    - apply for_raises with (x := List.length (elements di)).
      + apply in_seq. lia.
      + rewrite result_bind, result_lift.
        destruct (index (elements dt) _) as [e | t]; [eauto |].
        rewrite result_bind, result_lift.
        destruct (cell_eq0 t) as [e | z]; [eauto |].
        rewrite result_bind, result_lift.
        destruct (index (elements dn) _) as [e | nm]; [eauto |].
        rewrite result_bind, result_lift, index_out_of_range by lia. eauto. }
  destruct Hloop as [e ->]. eauto.
Qed.

(** When a step up to the catalog raises, so does the summary, and no
    result row is printed. *)
Lemma summarize_raises_at_catalog (f : node) :
  (exists e, result (contingency_definitions (root f)) = inl e) ->
  (exists e, result (summarize (root f)) = inl e) /\
  statuses (printed (summarize (root f))) = [].
Proof.
  intros [e He]. unfold summarize.
  rewrite result_bind, printed_bind, statuses_app,
    (statuses_nil _ (input_loads_no_status (root f))).
  destruct (result (input_loads (root f))) as [e1 | li];
    [split; [eauto | reflexivity] |].
  rewrite result_bind, printed_bind, statuses_app,
    (statuses_nil _ (base_case_no_status (root f) li)).
  destruct (result (base_case (root f) li)) as [e2 | []];
    [split; [eauto | reflexivity] |].
  rewrite result_bind, printed_bind, statuses_app,
    (statuses_nil _ (contingency_definitions_no_status (root f))), He.
  split; [eauto | reflexivity].
Qed.

Lemma index_in_range {A : Type} (xs : list A) (i : nat) (x : A) :
  index xs i = inr x -> (i + 1 <= List.length xs)%nat.
Proof.
  intros H. apply index_returns in H.
  assert (i < List.length xs)%nat by (apply nth_error_Some; congruence).
  lia.
Qed.

Lemma read_scenario_catalog_in_range (fs : filesystem) (path : string)
    (f : node) (dt dn di : dataset) :
  fs path = Some f ->
  resolve f "contingencies/types" = Some (Dataset dt) ->
  resolve f "contingencies/names" = Some (Dataset dn) ->
  resolve f "contingencies/ids" = Some (Dataset di) ->
  all_lines (catalog_in_range dt dn di) (read_scenario fs path).
Proof.
  intros Hf Ht Hn Hi.
  unfold read_scenario, open_file. rewrite Hf.
  unfold summarize, input_loads, base_case, contingency_definitions,
    post_contingency, result_row, redispatch, redispatch_table.
  all_lines_tac; try exact I.
  repeat match goal with
  | H : result (ret _) = inr _ |- _ => injection H as <-
  | H : result (getitem _ _) = inr _ |- _ =>
      apply getitem_returns in H; destruct H as [H _]
  | H : result (slice_all _) = inr _ |- _ => apply slice_all_returns in H
  | H : result (lift _) = inr _ |- _ => apply lift_returns in H
  end.
  cbn [root target is_scalar] in *.
  repeat match goal with
  | H : resolve f ?p = Some (target ?o), H' : target ?o = Dataset ?d |- _ =>
      rewrite H' in H; clear H'
  end.
  repeat match goal with
  | H : resolve f ?p = Some (Dataset ?d), H' : resolve f ?p = Some _ |- _ =>
      rewrite H in H'; injection H' as <-
  end.
  unfold catalog_in_range, len.
  repeat match goal with
  | H : index _ _ = inr _ |- _ => apply index_in_range in H
  end.
  lia.
Qed.

(** C5, as the code has it. If one of the parallel arrays [types], [names],
    [ids] is shorter than the declared count, the summary fails: the
    catalog loop raises at the first position missing from an array, so
    only positions present in all three arrays get a catalog line, and no
    row of post-contingency results is printed. *)
Theorem short_parallel_array_fails (fs : filesystem) (path : string)
    (f g : node) (n : Z) (dt dn di : dataset) :
  fs path = Some f ->
  resolve f "contingencies" = Some g ->
  assoc "count" (attrs_of g) = Some (AInt n) ->
  resolve f "contingencies/types" = Some (Dataset dt) ->
  resolve f "contingencies/names" = Some (Dataset dn) ->
  resolve f "contingencies/ids" = Some (Dataset di) ->
  (Z.of_nat (len dt) < n \/ Z.of_nat (len dn) < n
   \/ Z.of_nat (len di) < n)%Z ->
  (exists e, result (read_scenario fs path) = inl e) /\
  statuses (printed (read_scenario fs path)) = [] /\
  (forall (idx : nat) (nm id : cell) (lbl : string),
     In (CatalogLine idx nm lbl id) (printed (read_scenario fs path)) ->
     (idx <= len dt /\ idx <= len dn /\ idx <= len di)%nat).
Proof.
  intros Hf Hg Hcount Ht Hn Hi Hshort.
  destruct (summarize_raises_at_catalog f
              (contingency_definitions_short f g n dt dn di
                 Hg Hcount Ht Hn Hi Hshort)) as [[e He] Hrows].
  split; [| split].
  - exists e. unfold read_scenario, open_file. rewrite Hf.
    repeat rewrite result_bind. exact He.
  - unfold read_scenario, open_file. rewrite Hf.
    repeat rewrite printed_bind. exact Hrows.
  - intros idx nm id lbl Hin.
    pose proof (read_scenario_catalog_in_range fs path f dt dn di
                  Hf Ht Hn Hi) as Hall.
    unfold all_lines in Hall. rewrite Forall_forall in Hall.
    exact (Hall _ Hin).
Qed.

Lemma short_parallel_array_fails_witness :
  exists e,
    result (read_scenario (Sample.disk "s.h5" Sample.shorter_types) "s.h5")
    = inl e.
Proof.
  refine (proj1 (short_parallel_array_fails
            (Sample.disk "s.h5" Sample.shorter_types) "s.h5"
            Sample.shorter_types
            (Sample.catalog 2 [0]%Z ["LINE_1_2"; "GEN_3"] ["L12"; "G3"])
            2 (IntVec [0]%Z) (TextVec ["LINE_1_2"; "GEN_3"])
            (TextVec ["L12"; "G3"]) _ _ _ _ _ _ _));
    first [reflexivity | left; vm_compute; reflexivity].
Defined.

(** C5, as the specification has it, fails twice. Arrays longer than the
    declared count are not rejected: the summary completes. And with
    [types] shorter than the count, the catalog line of contingency 1 is
    printed before the failure. *)
Lemma parallel_length_not_checked :
  (resolve Sample.longer_arrays "contingencies/types"
     = Some (Dataset (IntVec [0; 1]%Z)) /\
   assoc "count" (attrs_of (Sample.catalog 1 [0; 1]%Z
                              ["LINE_1_2"; "GEN_3"] ["L12"; "G3"]))
     = Some (AInt 1) /\
   ~ (Z.of_nat (len (IntVec [0; 1]%Z)) <> 1%Z ->
      exists e,
        result (read_scenario (Sample.disk "s.h5" Sample.longer_arrays)
                  "s.h5") = inl e)) /\
  (resolve Sample.shorter_types "contingencies/types"
     = Some (Dataset (IntVec [0]%Z)) /\
   ~ (Z.of_nat (len (IntVec [0]%Z)) <> 2%Z ->
      forall (idx : nat) (nm id : cell) (lbl : string),
        ~ In (CatalogLine idx nm lbl id)
             (printed (read_scenario
                         (Sample.disk "s.h5" Sample.shorter_types) "s.h5")))).
Proof.
  split; split; try reflexivity; [split; [reflexivity |] |].
  - intros H. destruct H as [e He]; [vm_compute; discriminate |].
    vm_compute in He. discriminate He.
  - intros H.
    apply (H ltac:(vm_compute; discriminate) 1%nat (CText "LINE_1_2")
             (CText "L12") "LINE").
    vm_compute. tauto.
Qed.

(** ** Aborted summaries *)

(** Follow a run up to the first access of a path that [H] says is
    absent: every earlier step either raised or went on. *)
Ltac raises_at H :=
  repeat rewrite result_bind;
  repeat (match goal with
          | |- context [match result ?m with _ => _ end] =>
              lazymatch m with
              | context [match _ with _ => _ end] => fail
              | _ => idtac
              end;
              let E := fresh "E" in
              destruct (result m) as [? | ?] eqn:E;
              [solve [eauto]
              | try (exfalso; rewrite result_getitem in E;
                     cbn [root target is_scalar] in E; rewrite H in E;
                     discriminate E)]
          | |- context [result (match ?x with _ => _ end)] => destruct x
          end;
          cbv beta iota; repeat rewrite result_bind).

(** A summary raises when one of the paths it always opens is absent. *)
Lemma summarize_missing_path (f : node) (p : string) :
  In p required_paths -> resolve f p = None ->
  exists e, result (summarize (root f)) = inl e.
Proof.
  intros Hin Hp. unfold required_paths in Hin. simpl in Hin.
  unfold summarize, input_loads, base_case, contingency_definitions,
    post_contingency, redispatch, slice_column.
  repeat (destruct Hin as [<- | Hin]; [raises_at Hp |]).
  destruct Hin.
Qed.

(** The closing rule is the last thing a summary prints: a summary that
    raised did not print it. *)
Lemma summarize_aborted (f : obj) (e : exn) :
  result (summarize f) = inl e -> ~ In Footer (printed (summarize f)).
Proof.
  unfold summarize.
  assert (H1 : all_lines not_footer (input_loads f))
    by (unfold input_loads; all_lines_tac; discriminate).
  rewrite result_bind, printed_bind.
  unfold all_lines in H1. rewrite Forall_forall in H1.
  destruct (result (input_loads f)) as [e1 | li].
  { intros _ Hin. rewrite app_nil_r in Hin. now apply H1 in Hin. }
  assert (H2 : all_lines not_footer (base_case f li))
    by (unfold base_case; all_lines_tac; discriminate).
  rewrite result_bind, printed_bind.
  unfold all_lines in H2. rewrite Forall_forall in H2.
  destruct (result (base_case f li)) as [e2 | []].
  { intros _ Hin. rewrite app_nil_r in Hin.
    apply in_app_or in Hin. destruct Hin as [Hin | Hin];
      [now apply H1 in Hin | now apply H2 in Hin]. }
  assert (H3 : all_lines not_footer (contingency_definitions f))
    by (unfold contingency_definitions; all_lines_tac; discriminate).
  rewrite result_bind, printed_bind.
  unfold all_lines in H3. rewrite Forall_forall in H3.
  destruct (result (contingency_definitions f)) as [e3 | [n names]].
  { intros _ Hin. rewrite app_nil_r in Hin.
    repeat (apply in_app_or in Hin; destruct Hin as [Hin | Hin]);
      [now apply H1 in Hin | now apply H2 in Hin | now apply H3 in Hin]. }
  cbn [fst snd].
  assert (H4 : all_lines not_footer (post_contingency f li n names))
    by (unfold post_contingency, result_row; all_lines_tac; discriminate).
  rewrite result_bind, printed_bind.
  unfold all_lines in H4. rewrite Forall_forall in H4.
  destruct (result (post_contingency f li n names)) as [e4 | []].
  { intros _ Hin. rewrite app_nil_r in Hin.
    repeat (apply in_app_or in Hin; destruct Hin as [Hin | Hin]);
      [now apply H1 in Hin | now apply H2 in Hin | now apply H3 in Hin
      | now apply H4 in Hin]. }
  assert (H5 : all_lines not_footer (redispatch f))
    by (unfold redispatch, redispatch_table; all_lines_tac; discriminate).
  rewrite result_bind, printed_bind.
  unfold all_lines in H5. rewrite Forall_forall in H5.
  destruct (result (redispatch f)) as [e5 | []]; [| discriminate].
  intros _ Hin. rewrite app_nil_r in Hin.
  repeat (apply in_app_or in Hin; destruct Hin as [Hin | Hin]);
    [now apply H1 in Hin | now apply H2 in Hin | now apply H3 in Hin
    | now apply H4 in Hin | now apply H5 in Hin].
Qed.

Lemma read_scenario_result (fs : filesystem) (path : string) (f : node) :
  fs path = Some f ->
  result (read_scenario fs path) = result (summarize (root f)).
Proof.
  intros Hf. unfold read_scenario, open_file. rewrite Hf.
  repeat rewrite result_bind. reflexivity.
Qed.

Lemma read_scenario_printed (fs : filesystem) (path : string) (f : node) :
  fs path = Some f ->
  printed (read_scenario fs path) =
  (Rule :: Reading path :: Rule :: printed (summarize (root f)))%list.
Proof.
  intros Hf. unfold read_scenario, open_file. rewrite Hf.
  repeat rewrite printed_bind. reflexivity.
Qed.

Lemma read_scenario_missing_path (fs : filesystem) (path : string)
    (f : node) (p : string) :
  fs path = Some f -> In p required_paths -> resolve f p = None ->
  exists e, result (read_scenario fs path) = inl e.
Proof.
  intros Hf Hin Hp. rewrite (read_scenario_result fs path f Hf).
  now apply summarize_missing_path with (p := p).
Qed.

(** C6, as the code has it. When a path every summary needs is absent,
    or when anything else raises, the summary aborts: the exception
    reaches the caller and the report is never completed (its closing
    rule is not printed). The lines printed before the failing read are
    not taken back: the run always starts with the banner. *)
Theorem summary_aborts (fs : filesystem) (path : string) (f : node) :
  fs path = Some f ->
  (forall p : string,
     In p required_paths -> resolve f p = None ->
     exists e, result (read_scenario fs path) = inl e) /\
  (forall e : exn,
     result (read_scenario fs path) = inl e ->
     ~ In Footer (printed (read_scenario fs path)) /\
     exists rest : list line,
       printed (read_scenario fs path)
       = (Rule :: Reading path :: Rule :: rest)%list).
Proof.
  intros Hf. split.
  - intros p Hin Hp. now apply read_scenario_missing_path with (f := f) (p := p).
  - rewrite (read_scenario_result fs path f Hf),
      (read_scenario_printed fs path f Hf).
    intros e He. split; [| eauto].
    intros [H | [H | [H | H]]]; try discriminate H.
    now apply summarize_aborted in He.
Qed.

Lemma summary_aborts_witness :
  exists e,
    result (read_scenario (Sample.disk "s.h5" Sample.loads_only) "s.h5")
    = inl e.
Proof.
  refine (proj1 (summary_aborts (Sample.disk "s.h5" Sample.loads_only)
                   "s.h5" Sample.loads_only eq_refl)
            "base_solution/opf/nodes/bus" _ eq_refl).
  vm_compute. tauto.
Defined.

(** C6, as the specification has it, fails: with only the input loads in
    the file the summary raises at the first read of the base case, and by
    then seven lines of the report, the totals of demand among them, are
    printed. *)
Lemma partial_report_printed :
  result (read_scenario (Sample.disk "s.h5" Sample.loads_only) "s.h5")
    = inl (KeyError "base_solution/opf/nodes/bus") /\
  ~ (printed (read_scenario (Sample.disk "s.h5" Sample.loads_only) "s.h5")
     = []) /\
  In (TotalP 30)
     (printed (read_scenario (Sample.disk "s.h5" Sample.loads_only) "s.h5")).
Proof.
  split; [reflexivity |]. split; [discriminate |].
  vm_compute. tauto.
Qed.

(** ** The command line *)

Lemma for_returns {A : Type} (body : A -> M unit) (xs : list A) :
  (forall x, result (body x) = inr tt) -> result (for_ xs body) = inr tt.
Proof.
  intros H. induction xs as [| x xs IH]; simpl; [reflexivity |].
  now rewrite result_bind, H.
Qed.

Lemma visitor_returns (name : string) (n : node) :
  result (visitor name n) = inr tt.
Proof.
  destruct n as [d | attrs children |]; [reflexivity | |];
    unfold visitor; rewrite result_bind; cbn [result snd print];
    now apply for_returns.
Qed.


(** A loop that only prints. *)
Lemma for_print_run {A : Type} (g : A -> line) (xs : list A) :
  for_ xs (fun x => print (g x)) = (map (fun x => Print (g x)) xs, inr tt).
Proof.
  induction xs as [| x xs IH]; cbn [for_ map]; [reflexivity |].
  rewrite IH. reflexivity.
Qed.

Lemma lines_prints {A : Type} (g : A -> line) (xs : list A) :
  lines (map (fun x => Print (g x)) xs) = map g xs.
Proof. induction xs as [| x xs IH]; simpl; [reflexivity | now rewrite IH]. Qed.








(** The first events of the three components tell them apart. *)
Lemma print_structure_starts (fs : filesystem) (path : string) :
  nth_error (trace (print_structure fs path)) 0 = Some (Print Rule) /\
  nth_error (trace (print_structure fs path)) 1
  = Some (Print (StructureTitle path)).
Proof.
  unfold print_structure. repeat rewrite trace_bind. split; reflexivity.
Qed.

Lemma read_scenario_starts (fs : filesystem) (path : string) :
  nth_error (trace (read_scenario fs path)) 0 = Some (Print Rule) /\
  nth_error (trace (read_scenario fs path)) 1 = Some (Print (Reading path)).
Proof.
  unfold read_scenario. repeat rewrite trace_bind. split; reflexivity.
Qed.

Lemma read_element_starts (fs : filesystem) (path p : string) :
  nth_error (trace (read_element fs path p)) 0 <> Some (Print Rule).
Proof.
  unfold read_element, open_file.
  destruct (fs path) as [f |]; [| discriminate].
  rewrite trace_bind. cbn [trace result fst snd ret app].
  destruct (contains (root f) p); cbn [negb].
  - unfold getitem. repeat rewrite trace_bind. discriminate.
  - repeat rewrite trace_bind. discriminate.
Qed.

(** C9, as the code has it. With --structure the walker runs, whether or
    not --element is given as well; without --structure and with a
    non-empty --element the path reader runs on that path; with neither
    flag the summarizer runs. Every invocation runs one of the three
    components, and their runs are never the same, so exactly one. *)
Theorem dispatch (fs : filesystem) (a : args) :
  (structure a = true -> main fs a = print_structure fs (filepath a)) /\
  (forall p : string,
     structure a = false -> element a = Some p -> p <> "" ->
     main fs a = read_element fs (filepath a) p) /\
  (structure a = false -> element a = None ->
   main fs a = read_scenario fs (filepath a)) /\
  (main fs a = print_structure fs (filepath a) \/
   (exists p, element a = Some p /\
      main fs a = read_element fs (filepath a) p) \/
   main fs a = read_scenario fs (filepath a)) /\
  print_structure fs (filepath a) <> read_scenario fs (filepath a) /\
  (forall p : string,
     read_element fs (filepath a) p <> print_structure fs (filepath a) /\
     read_element fs (filepath a) p <> read_scenario fs (filepath a)).
Proof.
  unfold main, element_given.
  split; [| split; [| split; [| split; [| split]]]].
  - now intros ->.
  - intros p -> -> Hp. destruct p; [now elim Hp | reflexivity].
  - now intros -> ->.
  - destruct (structure a); [now left |].
    destruct (element a) as [p |]; [| now right; right].
    destruct (nonempty p); [right; left; eauto | now right; right].
  - intros H.
    pose proof (proj2 (print_structure_starts fs (filepath a))) as H1.
    pose proof (proj2 (read_scenario_starts fs (filepath a))) as H2.
    rewrite H in H1. rewrite H1 in H2. discriminate H2.
  - intros p. split; intros H;
      apply (read_element_starts fs (filepath a) p); rewrite H.
    + apply print_structure_starts.
    + apply read_scenario_starts.
Qed.

Lemma dispatch_witness :
  main (Sample.disk "s.h5" Sample.valid)
    (mkArgs "s.h5" false (Some "grid/nodes/load"))
  = read_element (Sample.disk "s.h5" Sample.valid) "s.h5" "grid/nodes/load".
Proof.
  refine (proj1 (proj2 (dispatch (Sample.disk "s.h5" Sample.valid)
                          (mkArgs "s.h5" false (Some "grid/nodes/load"))))
            "grid/nodes/load" eq_refl eq_refl _).
  discriminate.
Defined.

(** C9, as the specification has it, fails: the two flags can be given
    together, and then the walker runs, not the path reader. *)
Lemma structure_wins_over_element :
  structure (mkArgs "s.h5" true (Some "grid/nodes/load")) = true /\
  element (mkArgs "s.h5" true (Some "grid/nodes/load"))
    = Some "grid/nodes/load" /\
  main (Sample.disk "s.h5" Sample.valid)
    (mkArgs "s.h5" true (Some "grid/nodes/load"))
  = print_structure (Sample.disk "s.h5" Sample.valid) "s.h5" /\
  ~ (main (Sample.disk "s.h5" Sample.valid)
       (mkArgs "s.h5" true (Some "grid/nodes/load"))
     = read_element (Sample.disk "s.h5" Sample.valid) "s.h5"
         "grid/nodes/load").
Proof.
  repeat split. intros H.
  apply (f_equal (fun m => nth_error (trace m) 0)) in H.
  vm_compute in H. discriminate H.
Qed.

(** ** Solution data of a failed optimisation *)

(** X1. The loop over the contingencies branches on the flag: for a
    contingency whose optimisation did not converge it opens the result
    group and reads the two flags, nothing else, and the row it prints
    holds placeholders. *)
Theorem result_row_guarded (f : node) (li : dataset) (names : list cell)
    (i : nat) (pf opf : attr) :
  flags f i = Some (pf, opf) -> attr_eq1 opf = false ->
  accessed (result_row (root f) li names i)
  = [Obj (contingency_path i);
     Attr (contingency_path i) "pf_converged";
     Attr (contingency_path i) "opf_converged"] /\
  forall l, In l (printed (result_row (root f) li names i)) ->
    exists nm, l = FailedRow nm (status_fail (attr_eq1 pf)).
Proof.
  unfold flags.
  destruct (resolve f (contingency_path i)) as [g |] eqn:Hg;
    [| discriminate].
  destruct (assoc "pf_converged" (attrs_of g)) as [pf' |] eqn:Hpf;
    [| discriminate].
  destruct (assoc "opf_converged" (attrs_of g)) as [opf' |] eqn:Hopf;
    [| discriminate].
  intros [= -> ->] Hflag.
  unfold result_row.
  repeat (rewrite ?accessed_bind, ?printed_bind, ?result_getitem,
            ?result_getattr, ?accessed_getitem, ?printed_getitem,
            ?accessed_getattr, ?printed_getattr;
          cbn [root name target join is_scalar];
          rewrite ?Hg, ?Hpf, ?Hopf, ?Hflag; cbv beta iota).
  rewrite !result_lift, !accessed_lift, !printed_lift.
  destruct (index names i) as [e | nm];
    [split; [reflexivity | intros l []] |].
  repeat rewrite accessed_bind, printed_bind.
  rewrite !result_lift, !accessed_lift, !printed_lift.
  destruct (cell_text nm) as [e | s];
    [split; [reflexivity | intros l []] |].
  split; [reflexivity |]. intros l [<- | []]. eauto.
Qed.

Lemma result_row_guarded_witness :
  accessed (result_row (root Sample.five)
              (Table 4 [[10; 5; 1; 1]; [20; 8; 1; 1]]%float)
              [CText "c1"; CText "c2"; CText "c3"; CText "c4"; CText "c5"] 2)
  = [Obj (contingency_path 2);
     Attr (contingency_path 2) "pf_converged";
     Attr (contingency_path 2) "opf_converged"].
Proof.
  refine (proj1 (result_row_guarded Sample.five
            (Table 4 [[10; 5; 1; 1]; [20; 8; 1; 1]]%float)
            [CText "c1"; CText "c2"; CText "c3"; CText "c4"; CText "c5"]
            2 (AInt 1) (AInt 0) eq_refl eq_refl)).
Defined.

(** The scenario of the specification: contingency 3 of 5 with a
    feasible power flow and a failed optimisation gets the row
    "PF OK, OPF FAIL" with placeholders for cost and shed, and nothing
    below its result sub-tree [opf] is opened. *)
Theorem third_of_five_failed (np : numpy_str) :
  flags Sample.five 2 = Some (AInt 1, AInt 0) /\
  nth_error (printed (read_scenario (Sample.disk "s.h5" Sample.five) "s.h5"))
    26 = Some (FailedRow "c3" "PF OK, OPF FAIL") /\
  render np (FailedRow "c3" "PF OK, OPF FAIL")
  = "  c3                    |           - |           - | PF OK, OPF FAIL" /\
  untouched "post_contingency/contingency_000003/opf"
    (accessed (read_scenario (Sample.disk "s.h5" Sample.five) "s.h5"))
  = true.
Proof. repeat split; reflexivity. Qed.

(** C4 at the failing input. The redispatch opens the generator table of
    contingency 1 without looking at its flag: in a file whose
    contingency 1 has [opf_converged = 0] and no solution, the summary
    prints the row "PF OK, OPF FAIL" for it, then reads its solution
    sub-tree all the same and raises KeyError. *)
Theorem redispatch_reads_failed_contingency :
  flags Sample.first_failed 0 = Some (AInt 1, AInt 0) /\
  In (FailedRow "LINE_1_2" "PF OK, OPF FAIL")
     (printed (read_scenario (Sample.disk "s.h5" Sample.first_failed)
                 "s.h5")) /\
  In (Obj "post_contingency/contingency_000001/opf/nodes/generator")
     (accessed (read_scenario (Sample.disk "s.h5" Sample.first_failed)
                  "s.h5")) /\
  untouched "post_contingency/contingency_000001/opf"
    (accessed (read_scenario (Sample.disk "s.h5" Sample.first_failed)
                 "s.h5")) = false /\
  result (read_scenario (Sample.disk "s.h5" Sample.first_failed) "s.h5")
  = inl (KeyError "post_contingency/contingency_000001/opf/nodes/generator").
Proof.
  split; [reflexivity |]. split; [vm_compute; tauto |].
  split; [vm_compute; tauto |]. split; reflexivity.
Qed.

(** ** One row per contingency *)

Lemma contingency_definitions_returns (f : node) (n : attr)
    (names : list cell) :
  result (contingency_definitions (root f)) = inr (n, names) ->
  exists g, resolve f "contingencies" = Some g /\
    assoc "count" (attrs_of g) = Some n.
Proof.
  unfold contingency_definitions.
  rewrite result_bind, result_getitem. cbn [root target name join is_scalar].
  destruct (resolve f "contingencies") as [g |]; [| discriminate].
  rewrite result_bind, result_getattr. cbn [target is_scalar].
  destruct (assoc "count" (attrs_of g)) as [c |] eqn:Hc; [| discriminate].
  repeat (rewrite result_bind;
          match goal with
          | |- match ?r with _ => _ end = _ -> _ =>
              destruct r; [discriminate |]
          end).
  intros [= <- _]. exists g. split; [reflexivity | exact Hc].
Qed.

(** X2. A summary that completes printed exactly one result row for each
    of the [count] contingencies declared in the file. *)
Theorem summary_rows_complete (fs : filesystem) (path : string) (f : node) :
  fs path = Some f ->
  result (read_scenario fs path) = inr tt ->
  exists (g : node) (n : Z),
    resolve f "contingencies" = Some g /\
    assoc "count" (attrs_of g) = Some (AInt n) /\
    List.length (statuses (printed (read_scenario fs path))) = Z.to_nat n.
Proof.
  intros Hf. rewrite (read_scenario_result fs path f Hf),
    (read_scenario_printed fs path f Hf).
  cbn [statuses status_of]. unfold summarize.
  rewrite result_bind, printed_bind, statuses_app,
    (statuses_nil _ (input_loads_no_status (root f))).
  destruct (result (input_loads (root f))) as [e | li]; [discriminate |].
  rewrite result_bind, printed_bind, statuses_app,
    (statuses_nil _ (base_case_no_status (root f) li)).
  destruct (result (base_case (root f) li)) as [e | []]; [discriminate |].
  rewrite result_bind, printed_bind, statuses_app,
    (statuses_nil _ (contingency_definitions_no_status (root f))).
  destruct (result (contingency_definitions (root f))) as [e | [n names]]
    eqn:Hcat; [discriminate |].
  apply contingency_definitions_returns in Hcat.
  destruct Hcat as (g & Hg & Hcount).
  cbn [fst snd app]. rewrite result_bind, printed_bind, statuses_app.
  destruct (result (post_contingency (root f) li n names)) as [e | []]
    eqn:Hpost; [discriminate |].
  rewrite result_bind, printed_bind, statuses_app,
    (statuses_nil _ (redispatch_no_status (root f))).
  destruct (result (redispatch (root f))) as [e | []]; [discriminate |].
  intros _. cbn [printed trace fst print lines statuses status_of app].
  rewrite app_nil_r.
  unfold post_contingency in Hpost |- *.
  repeat rewrite result_bind in Hpost. repeat rewrite printed_bind.
  cbn [result printed trace fst snd print lines app statuses status_of]
    in Hpost |- *.
  rewrite result_lift in *.
  destruct n as [z | q | t]; try discriminate Hpost.
  cbn [attr_range] in *. exists g, z. split; [exact Hg |].
  split; [exact Hcount |]. rewrite printed_lift. cbn [app].
  now apply loop_complete.
Qed.

Lemma summary_rows_complete_witness :
  exists (g : node) (n : Z),
    resolve Sample.five "contingencies" = Some g /\
    assoc "count" (attrs_of g) = Some (AInt n) /\
    List.length (statuses (printed (read_scenario
                                      (Sample.disk "s.h5" Sample.five)
                                      "s.h5"))) = Z.to_nat n.
Proof.
  apply (summary_rows_complete (Sample.disk "s.h5" Sample.five) "s.h5"
           Sample.five); reflexivity.
Defined.

(** ** Sample runs *)

Example fmt_f_5 : Fmt.fmt_f 2 5 = "5.00".
Proof. reflexivity. Qed.

Example fmt_f_tie : Fmt.fmt_f 2 0.125 = "0.12".
Proof. reflexivity. Qed.

Example fmt_f_neg_small : Fmt.fmt_f 2 (-0.001) = "-0.00".
Proof. reflexivity. Qed.

Example fmt_f_nan : Fmt.fmt_f 2 nan = "nan".
Proof. reflexivity. Qed.

Example fmt_plus_f_3 : Fmt.rjust 7 (Fmt.fmt_plus_f 3 1.5) = " +1.500".
Proof. reflexivity. Qed.

Example fmt_f_of_Z : Fmt.fmt_f 2 (Fmt.of_Z 9007199254740993) = "9007199254740992.00".
Proof. reflexivity. Qed.

Example ljust_code_points :
  Fmt.ljust 4 (String (ascii_of_nat 195) (String (ascii_of_nat 169) "a"))
  = String (ascii_of_nat 195) (String (ascii_of_nat 169) "a  ").
Proof. reflexivity. Qed.

(** The sum is rounded as binary64 rounds it: 0.1 + 0.025 is 0.125 there,
    printed 0.12, where the exact sum of the two stored values would
    print 0.13. *)
Example sum_rounded : Fmt.fmt_f 2 (Np.sum [0.1; 0.025]%float) = "0.12".
Proof. reflexivity. Qed.

(** The threshold is the binary64 number nearest to 0.01: a generator
    that moves from 0.0 to 0.01 is not above it. *)
Example threshold_not_exceeded : is_significant (0.01 - 0)%float = false.
Proof. reflexivity. Qed.

Example zfill6_12 : Fmt.zfill6 12 = "000012".
Proof. reflexivity. Qed.

Example str_shape_2_4 : Fmt.str_shape [2; 4]%nat = "(2, 4)".
Proof. reflexivity. Qed.

Example contingency_path_1 :
  contingency_path 0 = "post_contingency/contingency_000001".
Proof. reflexivity. Qed.

(** The tables of the summary of [Sample.valid], as text. *)
Example valid_summary_rows (np : numpy_str) :
  map (render np)
    (skipn 19 (printed (read_scenario (Sample.disk "s.h5" Sample.valid)
                          "s.h5")))
  = ["  Name                  | Cost ($)    | P Shed (MW) | Status";
     "  --------------------------------------------------------";
     "  LINE_1_2              |      105.05 |        8.00 | PF+OPF OK";
     "  GEN_3                 |           - |           - | PF OK, OPF FAIL";
     nl ++ "------------------------------------------------------------";
     "Generator Redispatch (Base -> Contingency 1):";
     "------------------------------------------------------------";
     "  Gen#     Base Pg     Cont Pg      Delta";
     "     1      30.000      30.500      +0.500";
     nl ++ "============================================================"].
Proof. reflexivity. Qed.

(** The walk of [Sample.loads_only] and the reader on a group. *)
Example loads_only_walk :
  map fst (visititems Sample.loads_only)
  = ["grid"; "grid/nodes"; "grid/nodes/load"].
Proof. reflexivity. Qed.

Example read_group :
  printed (read_element (Sample.disk "s.h5" Sample.loads_only) "s.h5"
             "grid/nodes")
  = [ElemPath "grid/nodes"; ElemTypeGroup; ElemAttributes; ElemChildren;
     ElemChild "load"].
Proof. reflexivity. Qed.

(** * Further properties of the code *)

(** ** The path of a result group *)

Lemma uint_of_zeros (k : nat) (s : string) :
  NilEmpty.uint_of_string (Fmt.repeat_char "0" k ++ s)
  = option_map (zeros k) (NilEmpty.uint_of_string s).
Proof.
  induction k as [| k IH]; simpl.
  - now destruct (NilEmpty.uint_of_string s).
  - rewrite IH. now destruct (NilEmpty.uint_of_string s).
Qed.

Lemma of_uint_zeros (k : nat) (d : Decimal.uint) :
  Nat.of_uint (zeros k d) = Nat.of_uint d.
Proof.
  induction k as [| k IH]; [reflexivity |].
  simpl zeros. rewrite <- IH. reflexivity.
Qed.

Lemma uint_of_str_nat (n : nat) :
  exists d, NilEmpty.uint_of_string (Fmt.str_nat n) = Some d /\
    Nat.of_uint d = n.
Proof.
  unfold Fmt.str_nat, NilZero.string_of_uint.
  destruct (Nat.to_uint n) as [| d | d | d | d | d | d | d | d | d | d] eqn:E;
    try (rewrite <- E, NilEmpty.usu; eexists; split;
         [reflexivity | apply DecimalNat.Unsigned.of_to]).
  exists (Decimal.D0 Decimal.Nil). split; [reflexivity |].
  rewrite <- (DecimalNat.Unsigned.of_to n), E. reflexivity.
Qed.

(** The digits of [{n:06d}] read back as [n]. *)
Lemma zfill6_decode (n : nat) :
  option_map Nat.of_uint (NilEmpty.uint_of_string (Fmt.zfill6 n)) = Some n.
Proof.
  unfold Fmt.zfill6. cbv zeta. rewrite uint_of_zeros.
  destruct (uint_of_str_nat n) as (d & -> & Hd). simpl.
  now rewrite of_uint_zeros, Hd.
Qed.

Lemma append_inj_l (p a b : string) : p ++ a = p ++ b -> a = b.
Proof.
  induction p as [| c p IH]; simpl; [tauto |].
  intros [= H]. now apply IH.
Qed.

(** X4. Different contingencies have different result groups: the path
    built from the zero-padded sequence number determines the number. *)
Theorem contingency_path_inj (i j : nat) :
  contingency_path i = contingency_path j <-> i = j.
Proof.
  split; [| now intros ->].
  unfold contingency_path. intros H. apply append_inj_l in H.
  pose proof (zfill6_decode (i + 1)) as Hi.
  rewrite H, zfill6_decode in Hi. injection Hi as Hi. lia.
Qed.

(** ** The rows of the table of results *)

Lemma rows_none (ls : list line) : Forall no_status ls -> rows ls = [].
Proof.
  induction 1 as [| l ls Hl _ IH]; [reflexivity |].
  unfold rows in *. simpl. rewrite IH.
  destruct l; try reflexivity; discriminate Hl.
Qed.

Lemma rows_app (ls ls' : list line) :
  rows (ls ++ ls') = (rows ls ++ rows ls')%list.
Proof. apply filter_app. Qed.

(** [result_row] prints its row as its last act: one row when it
    returns, nothing when it raises. *)
Lemma result_row_prints (f : node) (li : dataset) (names : list cell)
    (i : nat) :
  match result (result_row (root f) li names i) with
  | inr _ => exists l, printed (result_row (root f) li names i) = [l] /\
               is_row l = true
  | inl _ => printed (result_row (root f) li names i) = []
  end.
Proof.
  unfold result_row, getitem, getattr, slice_all, lift, bind, touch,
    print, ret, raise, printed, result, trace, root.
  cbn [name target fst snd is_scalar].
  generalize (contingency_path i) as p; intros p.
  repeat (run_step; cbn [name target fst snd app lines is_scalar]);
    try reflexivity; eexists; split; reflexivity.
Qed.



(** The body of the catalog loop. *)
Lemma contingency_definitions_inv (f : node) (n : attr)
    (names : list cell) :
  result (contingency_definitions (root f)) = inr (n, names) ->
  exists (g : node) (z : Z) (dt dn di : dataset),
    resolve f "contingencies" = Some g /\
    assoc "count" (attrs_of g) = Some (AInt z) /\
    n = AInt z /\
    resolve f "contingencies/types" = Some (Dataset dt) /\
    resolve f "contingencies/names" = Some (Dataset dn) /\
    resolve f "contingencies/ids" = Some (Dataset di) /\
    names = elements dn /\
    result (for_ (seq 0 (Z.to_nat z)) (fun i : nat =>
              t <- lift (index (elements dt) i) ;;
              b <- lift (cell_eq0 t) ;;
              nm <- lift (index (elements dn) i) ;;
              id <- lift (index (elements di) i) ;;
              print (CatalogLine (i + 1) nm (type_str b) id))) = inr tt.
Proof.
  unfold contingency_definitions.
  repeat (rewrite result_bind, ?result_getitem, ?result_getattr;
          cbn [root target name join is_scalar];
          match goal with
          | |- match match ?r with _ => _ end with _ => _ end = _ -> _ =>
              destruct r eqn:?; [| discriminate]
          | |- match ?r with _ => _ end = _ -> _ =>
              destruct r eqn:?; [discriminate |]
          end; cbv beta iota).
  intros [= <- <-].
  repeat match goal with
  | H : result (slice_all _) = inr _ |- _ =>
      apply slice_all_returns in H; cbn [target is_scalar] in H; subst
  | H : result (lift _) = inr _ |- _ => apply lift_returns in H
  | u : unit |- _ => destruct u
  end.
  match goal with
  | H : attr_range ?a = inr _ |- _ =>
      destruct a as [z | q | t]; try discriminate H; injection H as <-
  end.
  repeat eexists; eassumption.
Qed.

Lemma slice_all_array (o : obj) (d : dataset) :
  result (slice_all o) = inr d -> is_scalar d = false.
Proof.
  unfold slice_all. destruct (target o) as [d' | |]; try discriminate.
  destruct (is_scalar d') eqn:E; [discriminate |]. now intros [= <-].
Qed.

(** The three parallel arrays of a catalog that was read are arrays. *)
Lemma contingency_definitions_sliced (f : node) (n : attr)
    (names : list cell) (dt dn di : dataset) :
  result (contingency_definitions (root f)) = inr (n, names) ->
  resolve f "contingencies/types" = Some (Dataset dt) ->
  resolve f "contingencies/names" = Some (Dataset dn) ->
  resolve f "contingencies/ids" = Some (Dataset di) ->
  is_scalar dt = false /\ is_scalar dn = false /\ is_scalar di = false.
Proof.
  intros H Ht Hn Hi. revert H. unfold contingency_definitions.
  repeat (rewrite result_bind, ?result_getitem, ?result_getattr;
          cbn [root target name join is_scalar];
          match goal with
          | |- match match ?r with _ => _ end with _ => _ end = _ -> _ =>
              destruct r eqn:?; [| discriminate]
          | |- match ?r with _ => _ end = _ -> _ =>
              destruct r eqn:?; [discriminate |]
          end; cbv beta iota).
  intros _.
  repeat match goal with
  | H : result (slice_all _) = inr _ |- _ =>
      pose proof (slice_all_array _ _ H);
      apply slice_all_returns in H; cbn [target] in H
  end.
  repeat split; congruence.
Qed.





(** ** The catalog, line by line *)

(** A loop over [range] whose body prints one line of a kind when it
    returns and none when it raises: line [k] of that kind is the one of
    iteration [k], and a loop that returns printed one per iteration. *)
Lemma loop_nth (p : line -> bool) (body : nat -> M unit) :
  (forall i,
     match result (body i) with
     | inr _ => exists l, filter p (printed (body i)) = [l]
     | inl _ => filter p (printed (body i)) = []
     end) ->
  forall n a,
    (forall k l,
       nth_error (filter p (printed (for_ (seq a n) body))) k = Some l ->
       filter p (printed (body (a + k)%nat)) = [l]) /\
    (result (for_ (seq a n) body) = inr tt ->
     List.length (filter p (printed (for_ (seq a n) body))) = n).
Proof.
  intros Hbody. induction n as [| n IH]; intros a; simpl.
  - split; [| reflexivity]. intros k l H. now apply nth_error_nil_some in H.
  - rewrite printed_bind, result_bind, filter_app, length_app.
    specialize (Hbody a). destruct (IH (S a)) as [IHnth IHlen].
    destruct (result (body a)) as [e | []].
    + rewrite Hbody. split; [| discriminate].
      intros k l H. now apply nth_error_nil_some in H.
    + destruct Hbody as [l0 Hl0]. rewrite Hl0. split.
      * intros [| k] l; simpl.
        -- intros [= <-]. now rewrite Nat.add_0_r.
        -- intros H. apply IHnth in H. now rewrite Nat.add_succ_r.
      * intros H. simpl. now rewrite IHlen.
Qed.

Lemma printed_slice_all (o : obj) : printed (slice_all o) = [].
Proof.
  unfold slice_all. destruct (target o) as [d | |]; try reflexivity.
  destruct (is_scalar d); reflexivity.
Qed.

(** One pass of the catalog loop. *)
Lemma catalog_body (ts ns ids : list cell) (i : nat) :
  let body :=
    t <- lift (index ts i) ;;
    b <- lift (cell_eq0 t) ;;
    nm <- lift (index ns i) ;;
    id <- lift (index ids i) ;;
    print (CatalogLine (i + 1) nm (type_str b) id) in
  match result body with
  | inr _ =>
      exists t b nm id,
        nth_error ts i = Some t /\ cell_eq0 t = inr b /\
        nth_error ns i = Some nm /\ nth_error ids i = Some id /\
        printed body = [CatalogLine (i + 1) nm (type_str b) id]
  | inl _ => printed body = []
  end.
Proof.
  cbv zeta.
  repeat rewrite result_bind, printed_bind. rewrite !result_lift, !printed_lift.
  destruct (index ts i) as [e | t] eqn:Ht; [reflexivity |].
  repeat rewrite result_bind, printed_bind. rewrite !result_lift, !printed_lift.
  destruct (cell_eq0 t) as [e | b] eqn:Hb; [reflexivity |].
  repeat rewrite result_bind, printed_bind. rewrite !result_lift, !printed_lift.
  destruct (index ns i) as [e | nm] eqn:Hnm; [reflexivity |].
  repeat rewrite result_bind, printed_bind. rewrite !result_lift, !printed_lift.
  destruct (index ids i) as [e | id] eqn:Hid; [reflexivity |].
  apply index_returns in Ht, Hnm, Hid.
  exists t, b, nm, id. repeat split; assumption.
Qed.

Lemma contingency_definitions_catalog (f : node) (k : nat) (l : line) :
  nth_error (catalog (printed (contingency_definitions (root f)))) k
    = Some l ->
  exists (dt dn di : dataset) (t : cell) (b : bool) (nm id : cell),
    resolve f "contingencies/types" = Some (Dataset dt) /\
    resolve f "contingencies/names" = Some (Dataset dn) /\
    resolve f "contingencies/ids" = Some (Dataset di) /\
    nth_error (elements dt) k = Some t /\ cell_eq0 t = inr b /\
    nth_error (elements dn) k = Some nm /\
    nth_error (elements di) k = Some id /\
    l = CatalogLine (k + 1) nm (type_str b) id.
Proof.
  unfold contingency_definitions, catalog.
  repeat (rewrite printed_bind;
          rewrite ?printed_getitem, ?printed_getattr, ?printed_slice_all,
            ?printed_lift;
          cbn [printed trace fst snd print lines app filter is_catalog
               result];
          try match goal with
          | |- nth_error (filter _ (match result ?m with _ => _ end)) _ = _
               -> _ =>
              let E := fresh "E" in
              destruct (result m) as [? | ?] eqn:E;
              [intros H; now apply nth_error_nil_some in H |]
          end).
  assert (Htail : forall r : exn + unit,
            match r with
            | inl _ => []
            | inr _ => printed (ret (a, elements d0))
            end = []) by (intros [? | ?]; reflexivity).
  rewrite Htail, app_nil_r. clear Htail.
  repeat match goal with
  | H : result (getitem _ _) = inr _ |- _ =>
      apply getitem_returns in H; destruct H as [H _]
  | H : result (slice_all _) = inr _ |- _ => apply slice_all_returns in H
  | H : result (lift _) = inr _ |- _ => apply lift_returns in H
  end.
  cbn [root target is_scalar] in *.
  repeat match goal with
  | H : resolve f ?p = Some (target ?o), H' : target ?o = Dataset ?d |- _ =>
      rewrite H' in H; clear H'
  end.
  destruct a as [z | q | s]; try discriminate. injection E7 as <-.
  match goal with
  | |- context [for_ _ ?b] => set (body := b)
  end.
  assert (Hbody : forall i,
            match result (body i) with
            | inr _ => exists l, filter is_catalog (printed (body i)) = [l]
            | inl _ => filter is_catalog (printed (body i)) = []
            end).
  { intros i.
    pose proof (catalog_body (elements d) (elements d0) (elements d1) i)
      as Hi.
    cbv zeta in Hi. fold (body i) in Hi.
    destruct (result (body i)) as [e | []].
    - now rewrite Hi.
    - destruct Hi as (t & b & nm & id & _ & _ & _ & _ & ->).
      eexists. reflexivity. }
  intros H.
  destruct (loop_nth is_catalog body Hbody (Z.to_nat z) 0%nat) as [Hnth _].
  apply Hnth in H. simpl in H.
  pose proof (catalog_body (elements d) (elements d0) (elements d1) k)
    as Hk.
  cbv zeta in Hk. fold (body k) in Hk.
  destruct (result (body k)) as [e | []].
  - rewrite Hk in H. discriminate H.
  - destruct Hk as (t & b & nm & id & Ht & Hb & Hnm & Hid & Hp).
    rewrite Hp in H. simpl in H. injection H as <-.
    exists d, d0, d1, t, b, nm, id. repeat split; assumption.
Qed.


Lemma catalog_none (ls : list line) : Forall not_catalog ls -> catalog ls = [].
Proof.
  induction 1 as [| l ls Hl _ IH]; [reflexivity |].
  unfold catalog in *. simpl. now rewrite Hl.
Qed.

Lemma catalog_body_filter (ts ns ids : list cell) (i : nat) :
  let body :=
    t <- lift (index ts i) ;;
    b <- lift (cell_eq0 t) ;;
    nm <- lift (index ns i) ;;
    id <- lift (index ids i) ;;
    print (CatalogLine (i + 1) nm (type_str b) id) in
  match result body with
  | inr _ => exists l, filter is_catalog (printed body) = [l]
  | inl _ => filter is_catalog (printed body) = []
  end.
Proof.
  pose proof (catalog_body ts ns ids i) as Hi. cbv zeta in *.
  destruct (result _) as [e | []].
  - now rewrite Hi.
  - destruct Hi as (t & b & nm & id & _ & _ & _ & _ & ->).
    eexists. reflexivity.
Qed.

Lemma contingency_definitions_catalog_length (f : node) (n : attr)
    (names : list cell) :
  result (contingency_definitions (root f)) = inr (n, names) ->
  exists z, n = AInt z /\
    List.length (catalog (printed (contingency_definitions (root f))))
    = Z.to_nat z.
Proof.
  intros H.
  destruct (contingency_definitions_inv f n names H)
    as (g & z & dt & dn & di & Hg & Hc & -> & Ht & Hn & Hi & -> & Hloop).
  exists z. split; [reflexivity |].
  destruct (contingency_definitions_sliced f _ _ dt dn di H Ht Hn Hi)
    as (Hst & Hsn & Hsi).
  unfold contingency_definitions, catalog.
  repeat (rewrite ?printed_bind, ?printed_getitem, ?printed_getattr,
            ?printed_slice_all, ?printed_lift, ?result_getitem,
            ?result_getattr, ?result_lift;
          cbn [root name target join app is_scalar];
          rewrite ?Hg, ?Hc, ?Ht, ?Hn, ?Hi, ?Hloop;
          unfold slice_all;
          cbn [target result printed trace fst snd ret print lines app
               attr_range filter is_catalog is_scalar];
          rewrite ?Hst, ?Hsn, ?Hsi;
          cbv beta iota).
  rewrite app_nil_r.
  apply (loop_nth is_catalog _
           (catalog_body_filter (elements dt) (elements dn) (elements di))
           (Z.to_nat z) 0%nat).
  exact Hloop.
Qed.

Lemma input_loads_not_catalog (f : obj) :
  all_lines not_catalog (input_loads f).
Proof. unfold input_loads. all_lines_tac; reflexivity. Qed.

Lemma base_case_not_catalog (f : obj) (li : dataset) :
  all_lines not_catalog (base_case f li).
Proof. unfold base_case. all_lines_tac; reflexivity. Qed.

Lemma post_contingency_not_catalog (f : obj) (li : dataset) (n : attr)
    (names : list cell) :
  all_lines not_catalog (post_contingency f li n names).
Proof. unfold post_contingency, result_row. all_lines_tac; reflexivity. Qed.

Lemma redispatch_not_catalog (f : obj) : all_lines not_catalog (redispatch f).
Proof. unfold redispatch, redispatch_table. all_lines_tac; reflexivity. Qed.

(** The catalog lines of a summary are those of the catalog loop, once it
    is reached. *)
Lemma summarize_catalog (f : node) :
  catalog (printed (summarize (root f))) = [] \/
  catalog (printed (summarize (root f)))
  = catalog (printed (contingency_definitions (root f))).
Proof.
  unfold summarize.
  rewrite printed_bind. unfold catalog at 1 2. rewrite filter_app.
  fold (catalog (printed (input_loads (root f)))).
  rewrite (catalog_none _ (input_loads_not_catalog (root f))).
  destruct (result (input_loads (root f))) as [e | li]; [now left |].
  rewrite printed_bind, filter_app.
  fold (catalog (printed (base_case (root f) li))).
  rewrite (catalog_none _ (base_case_not_catalog (root f) li)).
  destruct (result (base_case (root f) li)) as [e | []]; [now left |].
  right. rewrite printed_bind, filter_app. cbn [app].
  fold (catalog (printed (contingency_definitions (root f)))).
  destruct (result (contingency_definitions (root f))) as [e | [n names]];
    [now rewrite app_nil_r |].
  cbn [fst snd]. rewrite printed_bind, filter_app.
  fold (catalog (printed (post_contingency (root f) li n names))).
  rewrite (catalog_none _ (post_contingency_not_catalog (root f) li n names)).
  destruct (result (post_contingency (root f) li n names)) as [e | []];
    [now rewrite app_nil_r |].
  rewrite printed_bind, filter_app.
  fold (catalog (printed (redispatch (root f)))).
  rewrite (catalog_none _ (redispatch_not_catalog (root f))).
  destruct (result (redispatch (root f))) as [e | []];
    simpl; now rewrite app_nil_r.
Qed.

(** X6. The catalog of contingencies is printed in sequence order: its
    line [k] (counted from 0) is numbered [k + 1] and shows the name, the
    type label and the id stored at position [k] of the three parallel
    arrays. When the summary completes there is one catalog line for each
    of the [count] contingencies declared. *)
Theorem catalog_listing (fs : filesystem) (path : string) (f : node) :
  fs path = Some f ->
  (forall (k : nat) (l : line),
     nth_error (catalog (printed (read_scenario fs path))) k = Some l ->
     exists (dt dn di : dataset) (t : cell) (b : bool) (nm id : cell),
       resolve f "contingencies/types" = Some (Dataset dt) /\
       resolve f "contingencies/names" = Some (Dataset dn) /\
       resolve f "contingencies/ids" = Some (Dataset di) /\
       nth_error (elements dt) k = Some t /\ cell_eq0 t = inr b /\
       nth_error (elements dn) k = Some nm /\
       nth_error (elements di) k = Some id /\
       l = CatalogLine (k + 1) nm (type_str b) id) /\
  (result (read_scenario fs path) = inr tt ->
   exists (g : node) (z : Z),
     resolve f "contingencies" = Some g /\
     assoc "count" (attrs_of g) = Some (AInt z) /\
     List.length (catalog (printed (read_scenario fs path))) = Z.to_nat z).
Proof.
  intros Hf.
  rewrite (read_scenario_printed fs path f Hf),
    (read_scenario_result fs path f Hf).
  cbn [catalog filter is_catalog].
  fold (catalog (printed (summarize (root f)))).
  split.
  - intros k l H.
    destruct (summarize_catalog f) as [Hc | Hc]; rewrite Hc in H.
    + now apply nth_error_nil_some in H.
    + now apply contingency_definitions_catalog.
  - intros Hok.
    assert (Hcat : exists n names,
              result (contingency_definitions (root f)) = inr (n, names) /\
              catalog (printed (summarize (root f)))
              = catalog (printed (contingency_definitions (root f)))).
    { revert Hok. unfold summarize.
      rewrite result_bind, printed_bind. unfold catalog at 1.
      rewrite filter_app.
      fold (catalog (printed (input_loads (root f)))).
      rewrite (catalog_none _ (input_loads_not_catalog (root f))).
      destruct (result (input_loads (root f))) as [e | li]; [discriminate |].
      rewrite result_bind, printed_bind, filter_app.
      fold (catalog (printed (base_case (root f) li))).
      rewrite (catalog_none _ (base_case_not_catalog (root f) li)).
      destruct (result (base_case (root f) li)) as [e | []];
        [discriminate |].
      rewrite result_bind, printed_bind, filter_app. cbn [app].
      fold (catalog (printed (contingency_definitions (root f)))).
      destruct (result (contingency_definitions (root f)))
        as [e | [n names]]; [discriminate |].
      cbn [fst snd]. rewrite result_bind, printed_bind, filter_app.
      fold (catalog (printed (post_contingency (root f) li n names))).
      rewrite (catalog_none _
                 (post_contingency_not_catalog (root f) li n names)).
      destruct (result (post_contingency (root f) li n names))
        as [e | []]; [discriminate |].
      rewrite result_bind, printed_bind, filter_app.
      fold (catalog (printed (redispatch (root f)))).
      rewrite (catalog_none _ (redispatch_not_catalog (root f))).
      destruct (result (redispatch (root f))) as [e | []];
        [discriminate |].
      intros _. exists n, names. split; [reflexivity |].
      simpl. now rewrite app_nil_r. }
    destruct Hcat as (n & names & Hres & ->).
    destruct (contingency_definitions_catalog_length f n names Hres)
      as (z & -> & Hlen).
    destruct (contingency_definitions_inv f (AInt z) names Hres)
      as (g & z' & _ & _ & _ & Hg & Hc & [= <-] & _).
    exists g, z. repeat split; assumption.
Qed.

Lemma catalog_listing_witness :
  exists (g : node) (z : Z),
    resolve Sample.five "contingencies" = Some g /\
    assoc "count" (attrs_of g) = Some (AInt z) /\
    List.length (catalog (printed (read_scenario
                                     (Sample.disk "s.h5" Sample.five)
                                     "s.h5"))) = Z.to_nat z.
Proof.
  apply (proj2 (catalog_listing (Sample.disk "s.h5" Sample.five) "s.h5"
                  Sample.five eq_refl)).
  reflexivity.
Defined.

(** ** Totals and the voltage range *)

















(** What [base_case] prints up to the voltage range, whatever the bus
    table holds. *)
Lemma base_case_head (f : node) (li : dataset)
    (nb : nat) (bus : list (list float)) (ng : nat) (gen : list (list float))
    (served : dataset) :
  resolve f "base_solution/opf/nodes/bus" = Some (Dataset (Table nb bus)) ->
  (2 <= nb)%nat ->
  resolve f "base_solution/opf/nodes/generator"
    = Some (Dataset (Table ng gen)) ->
  (1 <= ng)%nat ->
  resolve f "base_solution/opf/nodes/load" = Some (Dataset served) ->
  is_scalar served = false ->
  match Np.min (col 1 bus), Np.max (col 1 bus) with
  | Some lo, Some hi =>
      exists tail : list line,
        printed (base_case (root f) li) =
        ([BaseCase; TotalGen (Np.sum (col 0 gen)); VoltageRange lo hi]
         ++ tail)%list
  | _, _ =>
      printed (base_case (root f) li)
      = [BaseCase; TotalGen (Np.sum (col 0 gen))] /\
      result (base_case (root f) li) = inl ValueError
  end.
Proof.
  intros Hbus Hnb Hgen Hng Hserved Harray.
  unfold base_case, slice_column.
  repeat (rewrite ?printed_bind, ?result_bind, ?printed_getitem,
            ?result_getitem, ?printed_slice_all, ?printed_lift, ?result_lift;
          cbn [root name target join app is_scalar];
          rewrite ?Hbus, ?Hgen, ?Hserved;
          unfold slice_all;
          cbn [target result printed trace fst snd ret print lines app is_scalar];
          rewrite ?Harray;
          rewrite ?column_table by lia;
          cbv beta iota).
  destruct (Np.min (col 1 bus)) as [lo |];
    [| split; reflexivity].
  destruct (Np.max (col 1 bus)) as [hi |];
    [| split; reflexivity].
  cbn [printed result trace fst snd print lines app].
  eexists. reflexivity.
Qed.



(** X8. A base solution without buses cannot be summarized: the minimum
    of an empty voltage column does not exist, so the summary raises
    ValueError after the total generation, and neither the voltage range
    nor the load shed is printed. (The served loads are an array: a
    scalar dataset in their place cannot be read at all.) *)
Theorem empty_bus_table_raises (fs : filesystem) (path : string)
    (f : node) (nl : nat) (li : list (list float))
    (nb : nat) (ng : nat) (gen : list (list float)) (served : dataset) :
  fs path = Some f ->
  resolve f "grid/nodes/load" = Some (Dataset (Table nl li)) ->
  (2 <= nl)%nat ->
  resolve f "base_solution/opf/nodes/bus" = Some (Dataset (Table nb [])) ->
  (2 <= nb)%nat ->
  resolve f "base_solution/opf/nodes/generator"
    = Some (Dataset (Table ng gen)) ->
  (1 <= ng)%nat ->
  resolve f "base_solution/opf/nodes/load" = Some (Dataset served) ->
  is_scalar served = false ->
  result (read_scenario fs path) = inl ValueError /\
  printed (read_scenario fs path)
  = [Rule; Reading path; Rule;
     InputLoads (Table nl li); Columns;
     TotalP (Np.sum (col 0 li)); TotalQ (Np.sum (col 1 li));
     BaseCase; TotalGen (Np.sum (col 0 gen))].
Proof.
  intros Hf Hli Hnl Hbus Hnb Hgen Hng Hserved Harray.
  rewrite (read_scenario_printed fs path f Hf),
    (read_scenario_result fs path f Hf).
  unfold summarize.
  rewrite printed_bind, result_bind, (input_loads_run f nl li Hli Hnl).
  cbn [printed result trace fst snd lines].
  rewrite printed_bind, result_bind.
  destruct (base_case_head f (Table nl li) nb [] ng gen served
              Hbus Hnb Hgen Hng Hserved Harray) as [-> ->].
  split; reflexivity.
Qed.

Lemma empty_bus_table_raises_witness :
  result (read_scenario (Sample.disk "s.h5" no_buses) "s.h5")
  = inl ValueError.
Proof.
  apply (empty_bus_table_raises (Sample.disk "s.h5" no_buses) "s.h5"
           no_buses 4 [[10; 5; 1; 1]; [20; 8; 1; 1]]%float 2 1 [[30]]%float
           (Table 2 [[10; 5]; [15; 6]]%float));
    first [reflexivity | lia].
Defined.

(** ** The declared count *)

Lemma loop_le (p : line -> bool) (body : nat -> M unit) :
  (forall i,
     match result (body i) with
     | inr _ => exists l, filter p (printed (body i)) = [l]
     | inl _ => filter p (printed (body i)) = []
     end) ->
  forall n a,
    (List.length (filter p (printed (for_ (seq a n) body))) <= n)%nat.
Proof.
  intros Hbody. induction n as [| n IH]; intros a; simpl; [lia |].
  rewrite printed_bind, filter_app, length_app.
  specialize (Hbody a). specialize (IH (S a)).
  destruct (result (body a)) as [e | []].
  - rewrite Hbody. simpl. lia.
  - destruct Hbody as [l0 ->]. simpl. lia.
Qed.

(** The catalog lines of [contingency_definitions]: none, or those of
    the loop over [range(count)] for an integer count. *)
Lemma contingency_definitions_catalog_cases (f : node) :
  catalog (printed (contingency_definitions (root f))) = [] \/
  exists (g : node) (z : Z) (dt dn di : dataset),
    resolve f "contingencies" = Some g /\
    assoc "count" (attrs_of g) = Some (AInt z) /\
    catalog (printed (contingency_definitions (root f)))
    = filter is_catalog
        (printed (for_ (seq 0 (Z.to_nat z)) (fun i : nat =>
           t <- lift (index (elements dt) i) ;;
           b <- lift (cell_eq0 t) ;;
           nm <- lift (index (elements dn) i) ;;
           id <- lift (index (elements di) i) ;;
           print (CatalogLine (i + 1) nm (type_str b) id)))).
Proof.
  unfold contingency_definitions, catalog.
  rewrite printed_bind, printed_getitem, result_getitem.
  cbn [root name target join app is_scalar].
  destruct (resolve f "contingencies") as [g |] eqn:Hg; [| now left].
  rewrite printed_bind, printed_getattr, result_getattr.
  cbn [target app is_scalar].
  destruct (assoc "count" (attrs_of g)) as [a |] eqn:Hc; [| now left].
  repeat (rewrite printed_bind;
          rewrite ?printed_getitem, ?printed_getattr, ?printed_slice_all,
            ?printed_lift;
          cbn [printed trace fst snd print lines app filter is_catalog
               result];
          try match goal with
          | |- filter _ (match result ?m with _ => _ end) = [] \/ _ =>
              let E := fresh "E" in
              destruct (result m) as [? | ?] eqn:E; [now left |]
          end).
  match goal with
  | H : result (lift (attr_range a)) = inr _ |- _ =>
      apply lift_returns in H;
      destruct a as [z | q | s]; try discriminate H; injection H as <-
  end.
  right. exists g, z. do 3 eexists. split; [reflexivity |].
  split; [exact Hc |].
  rewrite filter_app.
  match goal with
  | |- context [match ?r with inl _ => [] | inr _ => _ end] =>
      destruct r as [? | ?]
  end; cbn [printed trace fst ret lines filter];
    rewrite app_nil_r; reflexivity.
Qed.


Lemma result_row_filter (f : node) (li : dataset) (names : list cell)
    (i : nat) :
  match result (result_row (root f) li names i) with
  | inr _ =>
      exists l, filter is_row (printed (result_row (root f) li names i)) = [l]
  | inl _ => filter is_row (printed (result_row (root f) li names i)) = []
  end.
Proof.
  pose proof (result_row_prints f li names i) as H.
  destruct (result (result_row (root f) li names i)) as [e | []].
  - now rewrite H.
  - destruct H as (l & -> & Hl). exists l. simpl. now rewrite Hl.
Qed.

Lemma post_contingency_rows_cases (f : node) (li : dataset) (n : attr)
    (names : list cell) :
  rows (printed (post_contingency (root f) li n names)) = [] \/
  exists z, n = AInt z /\
    rows (printed (post_contingency (root f) li n names))
    = filter is_row
        (printed (for_ (seq 0 (Z.to_nat z)) (result_row (root f) li names))).
Proof.
  unfold post_contingency. repeat rewrite printed_bind.
  cbn [printed result trace fst snd print lines app rows filter is_row].
  rewrite result_lift, printed_lift. cbn [app].
  destruct n as [z | q | s]; cbn [attr_range]; [| now left | now left].
  right. exists z. split; reflexivity.
Qed.

Lemma summarize_rows_cases (f : node) :
  rows (printed (summarize (root f))) = [] \/
  exists (li : dataset) (n : attr) (names : list cell),
    result (contingency_definitions (root f)) = inr (n, names) /\
    rows (printed (summarize (root f)))
    = rows (printed (post_contingency (root f) li n names)).
Proof.
  unfold summarize.
  rewrite printed_bind, rows_app,
    (rows_none _ (input_loads_no_status (root f))).
  destruct (result (input_loads (root f))) as [e | li]; [now left |].
  rewrite printed_bind, rows_app,
    (rows_none _ (base_case_no_status (root f) li)).
  destruct (result (base_case (root f) li)) as [e | []]; [now left |].
  rewrite printed_bind, rows_app,
    (rows_none _ (contingency_definitions_no_status (root f))).
  destruct (result (contingency_definitions (root f))) as [e | [n names]];
    [now left |].
  right. exists li, n, names. split; [reflexivity |].
  cbn [fst snd app]. rewrite printed_bind, rows_app.
  destruct (result (post_contingency (root f) li n names)) as [e | []];
    [now rewrite app_nil_r |].
  rewrite printed_bind, rows_app,
    (rows_none _ (redispatch_no_status (root f))).
  destruct (result (redispatch (root f))) as [e | []];
    simpl; now rewrite app_nil_r.
Qed.

Lemma read_scenario_catalog (fs : filesystem) (path : string) (f : node) :
  fs path = Some f ->
  catalog (printed (read_scenario fs path))
  = catalog (printed (summarize (root f))).
Proof. intros Hf. now rewrite (read_scenario_printed fs path f Hf). Qed.

Lemma read_scenario_rows (fs : filesystem) (path : string) (f : node) :
  fs path = Some f ->
  rows (printed (read_scenario fs path))
  = rows (printed (summarize (root f))).
Proof. intros Hf. now rewrite (read_scenario_printed fs path f Hf). Qed.

(** X9. Whatever else the file holds and however far the summary gets,
    it prints at most [count] catalog lines and at most [count] result
    rows; with a count of zero or less it prints none (the range of a
    non-positive number is empty, not an error). *)
Theorem lines_bounded_by_count (fs : filesystem) (path : string)
    (f g : node) (z : Z) :
  fs path = Some f ->
  resolve f "contingencies" = Some g ->
  assoc "count" (attrs_of g) = Some (AInt z) ->
  (List.length (catalog (printed (read_scenario fs path))) <= Z.to_nat z
   /\ List.length (rows (printed (read_scenario fs path))) <= Z.to_nat z)%nat
  /\ ((z <= 0)%Z ->
      catalog (printed (read_scenario fs path)) = [] /\
      rows (printed (read_scenario fs path)) = []).
Proof.
  intros Hf Hg Hc.
  assert (Hle : (List.length (catalog (printed (read_scenario fs path)))
                 <= Z.to_nat z
                 /\ List.length (rows (printed (read_scenario fs path)))
                    <= Z.to_nat z)%nat).
  { rewrite (read_scenario_catalog fs path f Hf),
      (read_scenario_rows fs path f Hf). split.
    - destruct (summarize_catalog f) as [-> | ->]; [simpl; lia |].
      destruct (contingency_definitions_catalog_cases f)
        as [-> | (g' & z' & dt & dn & di & Hg' & Hc' & ->)]; [simpl; lia |].
      rewrite Hg in Hg'. injection Hg' as <-.
      rewrite Hc in Hc'. injection Hc' as <-.
      apply (loop_le is_catalog _
               (catalog_body_filter (elements dt) (elements dn)
                  (elements di))).
    - destruct (summarize_rows_cases f)
        as [-> | (li & n & names & Hres & ->)]; [simpl; lia |].
      destruct (contingency_definitions_inv f n names Hres)
        as (g' & z' & _ & _ & _ & Hg' & Hc' & -> & _).
      rewrite Hg in Hg'. injection Hg' as <-.
      rewrite Hc in Hc'. injection Hc' as <-.
      destruct (post_contingency_rows_cases f li (AInt z) names)
        as [-> | (z' & [= <-] & ->)]; [simpl; lia |].
      apply (loop_le is_row _ (result_row_filter f li names)). }
  split; [exact Hle |].
  intros Hz. destruct Hle as [H1 H2].
  replace (Z.to_nat z) with 0%nat in * by lia.
  split.
  - destruct (catalog _); [reflexivity | simpl in H1; lia].
  - destruct (rows _); [reflexivity | simpl in H2; lia].
Qed.

(** X10. A count that is not an integer (a float or a text attribute)
    cannot drive the loops: the summary raises, and no catalog line and no
    result row is printed. *)
Theorem non_integer_count_raises (fs : filesystem) (path : string)
    (f g : node) (a : attr) :
  fs path = Some f ->
  resolve f "contingencies" = Some g ->
  assoc "count" (attrs_of g) = Some a ->
  (forall z, a <> AInt z) ->
  (exists e, result (read_scenario fs path) = inl e) /\
  catalog (printed (read_scenario fs path)) = [] /\
  rows (printed (read_scenario fs path)) = [].
Proof.
  intros Hf Hg Hc Ha.
  assert (Hcd : exists e, result (contingency_definitions (root f)) = inl e).
  { destruct (result (contingency_definitions (root f)))
      as [e | [n names]] eqn:Hres; [eauto |].
    destruct (contingency_definitions_inv f n names Hres)
      as (g' & z' & _ & _ & _ & Hg' & Hc' & _).
    rewrite Hg in Hg'. injection Hg' as <-.
    rewrite Hc in Hc'. injection Hc' as ->. now elim (Ha z'). }
  rewrite (read_scenario_catalog fs path f Hf),
    (read_scenario_rows fs path f Hf), (read_scenario_result fs path f Hf).
  split; [apply (summarize_raises_at_catalog f Hcd) |]. split.
  - destruct (summarize_catalog f) as [-> | ->]; [reflexivity |].
    destruct (contingency_definitions_catalog_cases f)
      as [-> | (g' & z' & dt & dn & di & Hg' & Hc' & _)]; [reflexivity |].
    rewrite Hg in Hg'. injection Hg' as <-.
    rewrite Hc in Hc'. injection Hc' as ->. now elim (Ha z').
  - destruct (summarize_rows_cases f)
      as [-> | (li & n & names & Hres & _)]; [reflexivity |].
    destruct Hcd as [e He]. congruence.
Qed.

Lemma lines_bounded_by_count_witness :
  catalog (printed (read_scenario (Sample.disk "s.h5" no_contingencies)
                      "s.h5")) = [] /\
  rows (printed (read_scenario (Sample.disk "s.h5" no_contingencies)
                   "s.h5")) = [].
Proof.
  apply (proj2 (lines_bounded_by_count
                  (Sample.disk "s.h5" no_contingencies) "s.h5"
                  no_contingencies (Sample.catalog 0 [] [] []) 0
                  eq_refl eq_refl eq_refl)).
  lia.
Defined.

Lemma non_integer_count_raises_witness :
  exists e,
    result (read_scenario (Sample.disk "s.h5" float_count) "s.h5") = inl e.
Proof.
  refine (proj1 (non_integer_count_raises
            (Sample.disk "s.h5" float_count) "s.h5" float_count
            (Group [("count", AFloat 1)]
               [("types", Dataset (IntVec [0]%Z));
                ("names", Dataset (TextVec ["LINE_1_2"]));
                ("ids", Dataset (TextVec ["L12"]))])
            (AFloat 1) eq_refl eq_refl eq_refl _)).
  discriminate.
Defined.

(** ** The path reader *)







(** ** The structure walker *)

Lemma for_returning {A : Type} (body : A -> M unit) (xs : list A) :
  (forall x, result (body x) = inr tt) ->
  printed (for_ xs body) = flat_map (fun x => printed (body x)) xs.
Proof.
  intros H. induction xs as [| x xs IH]; cbn [for_ flat_map];
    [reflexivity |].
  now rewrite printed_bind, H, IH.
Qed.

Lemma printed_visitor (name : string) (n : node) :
  printed (visitor name n)
  = match n with
    | Dataset d => [WalkDataset name d]
    | _ =>
        WalkGroup name
        :: map (fun kv => WalkAttr name (fst kv) (snd kv)) (items n)
    end.
Proof.
  destruct n as [d | attrs children |]; [reflexivity | |];
    unfold visitor; rewrite for_print_run;
    unfold printed; cbn [bind print trace fst lines app];
    now rewrite lines_prints.
Qed.


Lemma printed_print_structure (fs : filesystem) (path : string) (f : node) :
  fs path = Some f ->
  printed (print_structure fs path)
  = ([Rule; StructureTitle path; Rule]
     ++ flat_map (fun pn => printed (visitor (fst pn) (snd pn)))
          (visititems f))%list.
Proof.
  intros Hf. unfold print_structure, open_file. rewrite Hf.
  repeat rewrite printed_bind.
  cbn [printed result trace fst snd print ret lines app root target is_scalar].
  rewrite for_returning; [reflexivity |].
  intros [p n]. apply visitor_returns.
Qed.






Lemma count_slash_app (a b : string) :
  count_slash (a ++ b) = (count_slash a + count_slash b)%nat.
Proof.
  induction a as [| c a IH]; simpl; [reflexivity |].
  rewrite IH. lia.
Qed.

(** A walked name has one slash less than it has components. *)
Lemma visit_depth (n : node) :
  wf n = true ->
  forall (prefix p : string) (nd : node),
    prefix = "" \/
    (count_slash prefix + 1 = List.length (components prefix))%nat ->
    In (p, nd) (visit prefix n) ->
    (count_slash p + 1 = List.length (components p))%nat.
Proof.
  induction n as [d | attrs children IH |] using node_induction;
    intros Hwf prefix p nd Hpre Hin; [destruct Hin | | destruct Hin].
  simpl in Hwf. apply andb_true_iff in Hwf. destruct Hwf as [_ Hall].
  rewrite forallb_forall in Hall. rewrite Forall_forall in IH.
  apply in_visit in Hin. destruct Hin as (s & c & Hc & _ & Hin).
  specialize (Hall _ Hc). simpl in Hall.
  apply andb_true_iff in Hall. destruct Hall as [Hs Hwfc].
  assert (Hjoin : (count_slash (join prefix s) + 1
                   = List.length (components (join prefix s)))%nat).
  { rewrite (components_join prefix s Hs), length_app. simpl.
    apply valid_name_inv in Hs. destruct Hs as (_ & Hs & _).
    destruct Hpre as [-> | Hpre].
    - simpl. lia.
    - destruct prefix as [| c0 prefix]; [simpl in Hpre; lia |].
      unfold join. rewrite !count_slash_app. simpl count_slash at 2.
      rewrite Hs. simpl in *. lia. }
  destruct Hin as [[= -> ->] | Hin]; [exact Hjoin |].
  exact (IH _ Hc Hwfc _ _ _ (or_intror Hjoin) Hin).
Qed.

Lemma repeat_char_app (c : ascii) (n m : nat) (s : string) :
  Fmt.repeat_char c n ++ Fmt.repeat_char c m ++ s
  = Fmt.repeat_char c (n + m) ++ s.
Proof.
  induction n as [| n IH]; cbn [Fmt.repeat_char Nat.add append];
    [reflexivity | now rewrite IH].
Qed.

(** [k] indents are [2 * k] spaces. *)
Lemma indent_spaces (k : nat) (s : string) :
  indent k ++ s = Fmt.repeat_char " " (2 * k) ++ s.
Proof.
  induction k as [| k IH]; [reflexivity |].
  replace (2 * S k)%nat with (S (S (2 * k))) by lia.
  cbn [indent Fmt.repeat_char append]. now rewrite IH.
Qed.

(** X14. The walker indents the line of every object by two spaces for
    each group above it in the file: an object whose name has [k + 1]
    components starts after [2 * k] spaces, and the lines of its
    attributes after two more. *)
Theorem structure_indentation (np : numpy_str) (fs : filesystem)
    (path : string) (f : node) (l : line) :
  wf f = true ->
  fs path = Some f ->
  In l (printed (print_structure fs path)) ->
  match l with
  | WalkGroup p =>
      exists k : nat,
        List.length (components p) = S k /\
        render np l = Fmt.repeat_char " " (2 * k) ++ p ++ "/"
  | WalkDataset p d =>
      exists k : nat,
        List.length (components p) = S k /\
        render np l
        = Fmt.repeat_char " " (2 * k) ++ p ++ ": "
          ++ Fmt.str_shape (shape d) ++ " " ++ str_dtype np d
  | WalkAttr p key val =>
      exists k : nat,
        List.length (components p) = S k /\
        render np l
        = Fmt.repeat_char " " (2 * k + 2) ++ "@" ++ key ++ " = "
          ++ str_attr np val
  | _ => True
  end.
Proof.
  intros Hwf Hf Hl. rewrite (printed_print_structure fs path f Hf) in Hl.
  apply in_app_iff in Hl.
  destruct Hl as [[<- | [<- | [<- | []]]] | Hl]; try exact I.
  apply in_flat_map in Hl. destruct Hl as ([p nd] & Hin & Hl).
  cbn [fst snd] in Hl. rewrite printed_visitor in Hl.
  pose proof (visit_depth f Hwf "" p nd (or_introl eq_refl) Hin) as Hd.
  assert (Hk : List.length (components p) = S (count_slash p)) by lia.
  assert (Hline : l = WalkGroup p \/
                  (exists d, l = WalkDataset p d) \/
                  exists key val, l = WalkAttr p key val).
  { destruct nd as [d | attrs children |].
    - destruct Hl as [<- | []]. right. left. now exists d.
    - destruct Hl as [<- | Hl]; [now left |].
      apply in_map_iff in Hl. destruct Hl as ([key val] & <- & _).
      right. right. now exists key, val.
    - destruct Hl as [<- | []]. now left. }
  destruct Hline as [-> | [[d ->] | (key & val & ->)]];
    exists (count_slash p); (split; [exact Hk |]); cbn [render].
  - apply indent_spaces.
  - apply indent_spaces.
  - rewrite indent_spaces.
    change ("  @" ++ key ++ " = " ++ str_attr np val)
      with (Fmt.repeat_char " " 2 ++ "@" ++ key ++ " = " ++ str_attr np val).
    apply repeat_char_app.
Qed.

Lemma structure_indentation_witness :
  render (mkNumpyStr (fun _ => "") (fun _ => "") (fun _ => "")
                     (fun _ => "int64"))
    (WalkDataset "alpha/y" (Scalar (AInt 7)))
  = "  alpha/y: () int64" /\
  render (mkNumpyStr (fun _ => "") (fun _ => "") (fun _ => "")
                     (fun _ => "int64"))
    (WalkAttr "alpha" "base" (AInt 100))
  = "  @base = 100".
Proof.
  split.
  - destruct (structure_indentation
                (mkNumpyStr (fun _ => "") (fun _ => "") (fun _ => "")
                            (fun _ => "int64"))
                (Sample.disk "s.h5" Sample.unordered) "s.h5" Sample.unordered
                (WalkDataset "alpha/y" (Scalar (AInt 7))) eq_refl eq_refl)
      as (k & Hk & Hr).
    + vm_compute. tauto.
    + injection Hk as <-. exact Hr.
  - destruct (structure_indentation
                (mkNumpyStr (fun _ => "") (fun _ => "") (fun _ => "")
                            (fun _ => "int64"))
                (Sample.disk "s.h5" Sample.unordered) "s.h5" Sample.unordered
                (WalkAttr "alpha" "base" (AInt 100)) eq_refl eq_refl)
      as (k & Hk & Hr).
    + vm_compute. tauto.
    + injection Hk as <-. exact Hr.
Defined.

(** ** The redispatch table, row by row *)

Lemma redispatch_numbers_app (ls ls' : list line) :
  redispatch_numbers (ls ++ ls')
  = (redispatch_numbers ls ++ redispatch_numbers ls')%list.
Proof.
  induction ls as [| l ls IH]; simpl; [reflexivity |].
  destruct l; simpl; now rewrite ?IH.
Qed.

Lemma redispatch_numbers_none (ls : list line) :
  Forall not_redispatch ls -> redispatch_numbers ls = [].
Proof.
  induction 1 as [| l ls Hl _ IH]; simpl; [reflexivity |].
  destruct l; try exact IH. elim Hl. exact I.
Qed.

Lemma redispatch_numbers_rows (b c d : list float) (xs : list nat) :
  redispatch_numbers
    (map (fun i => RedispatchRow (i + 1) (nth i b 0%float) (nth i c 0%float)
                                 (nth i d 0%float)) xs)
  = map (fun i => (i + 1)%nat) xs.
Proof. induction xs as [| x xs IH]; simpl; now rewrite ?IH. Qed.

(** [np.where] yields positions in ascending order, all inside the mask. *)
Lemma where_from_sorted (mask : list bool) :
  forall i,
    StronglySorted lt (where_from i mask) /\
    Forall (fun k => i <= k < i + List.length mask)%nat (where_from i mask).
Proof.
  induction mask as [| b mask IH]; intros i; simpl.
  - split; constructor.
  - destruct (IH (S i)) as [Hs Hb].
    assert (Hb' : Forall (fun k => i <= k < i + S (List.length mask))%nat
                    (where_from (S i) mask)).
    { eapply Forall_impl; [| exact Hb]. simpl. intros k Hk. lia. }
    destruct b; [| now split].
    split.
    + constructor; [exact Hs |].
      eapply Forall_impl; [| exact Hb]. simpl. intros k Hk. lia.
    + constructor; [lia | exact Hb'].
Qed.

(** X15. In a completed summary the rows of the redispatch table are in
    ascending generator order, each generator at most once, and their
    numbers lie between 1 and the number of generators. *)
Theorem redispatch_rows_ordered (fs : filesystem) (path : string) (f : node)
    (nb : nat) (base : list (list float)) (nc : nat) (cont : list (list float)) :
  fs path = Some f ->
  result (read_scenario fs path) = inr tt ->
  resolve f "base_solution/opf/nodes/generator"
    = Some (Dataset (Table nb base)) ->
  (1 <= nb)%nat ->
  resolve f "post_contingency/contingency_000001/opf/nodes/generator"
    = Some (Dataset (Table nc cont)) ->
  (1 <= nc)%nat ->
  List.length cont = List.length base ->
  StronglySorted lt (redispatch_numbers (printed (read_scenario fs path))) /\
  Forall (fun k => 1 <= k <= List.length base)%nat
    (redispatch_numbers (printed (read_scenario fs path))).
Proof.
  intros Hf Hok Hbase Hnb Hcont Hnc Hlen.
  destruct (read_scenario_success_lines fs path f Hf Hok)
    as (pre & -> & Hpre).
  rewrite (redispatch_lines f nb base nc cont Hbase Hnb Hcont Hnc Hlen).
  assert (Hc : List.length (col 0 cont) = List.length (col 0 base))
    by (unfold col; now rewrite !length_map).
  destruct (redispatch_table_lines (col 0 base) (col 0 cont)
              (zip_sub (col 0 cont) (col 0 base)) Hc
              (zip_sub_length _ _ Hc)) as [-> _].
  rewrite !redispatch_numbers_app, (redispatch_numbers_none pre Hpre).
  cbn [redispatch_numbers app]. rewrite app_nil_r.
  set (mask := map is_significant (zip_sub (col 0 cont) (col 0 base))).
  assert (Hmask : List.length mask = List.length base).
  { unfold mask. rewrite length_map, zip_sub_length by exact Hc.
    unfold col. now rewrite length_map. }
  destruct (any mask); [| split; constructor].
  cbn [redispatch_numbers]. rewrite redispatch_numbers_rows.
  unfold where_. destruct (where_from_sorted mask 0) as [Hs Hb].
  split.
  - clear Hb. induction Hs as [| k ks Hs IH Hk]; simpl; constructor.
    + exact IH.
    + rewrite Forall_forall in *. intros x Hx.
      apply in_map_iff in Hx. destruct Hx as (y & <- & Hy).
      apply Hk in Hy. lia.
  - rewrite Forall_forall in *. intros x Hx.
    apply in_map_iff in Hx. destruct Hx as (y & <- & Hy).
    apply Hb in Hy. lia.
Qed.

Lemma redispatch_rows_ordered_witness :
  redispatch_numbers
    (printed (read_scenario (Sample.disk "s.h5" Sample.network) "s.h5"))
  = [1; 4]%nat /\
  StronglySorted lt
    (redispatch_numbers
       (printed (read_scenario (Sample.disk "s.h5" Sample.network) "s.h5"))).
Proof.
  split; [reflexivity |].
  refine (proj1 (redispatch_rows_ordered
            (Sample.disk "s.h5" Sample.network) "s.h5" Sample.network
            1 [[30]; [10]; [0]; [5]]%float
            1 [[30.5]; [10.005]; [0.01]; [4]]%float _ _ _ _ _ _ _));
    first [reflexivity | lia].
Defined.

(** A summary splits into what the sections before the redispatch
    print, and the redispatch with the closing rule if it is reached. *)
Lemma summarize_split (P : line -> Prop) (o : obj) :
  all_lines P (input_loads o) ->
  (forall li, all_lines P (base_case o li)) ->
  all_lines P (contingency_definitions o) ->
  (forall li n names, all_lines P (post_contingency o li n names)) ->
  exists pre : list line,
    Forall P pre /\
    ((printed (summarize o) = pre /\
      exists e, result (summarize o) = inl e) \/
     (printed (summarize o)
      = (pre ++ printed (redispatch o)
         ++ match result (redispatch o) with
            | inr _ => [Footer]
            | inl _ => []
            end)%list /\
      result (summarize o)
      = match result (redispatch o) with
        | inr _ => inr tt
        | inl e => inl e
        end)).
Proof.
  intros H1 H2 H3 H4. unfold all_lines in *. unfold summarize.
  rewrite result_bind, printed_bind.
  destruct (result (input_loads o)) as [e | li].
  { exists (printed (input_loads o)). split; [exact H1 |]. left.
    rewrite app_nil_r. eauto. }
  rewrite result_bind, printed_bind.
  destruct (result (base_case o li)) as [e | []].
  { exists (printed (input_loads o) ++ printed (base_case o li))%list.
    split; [apply Forall_app; auto |]. left. rewrite app_nil_r. eauto. }
  rewrite result_bind, printed_bind.
  destruct (result (contingency_definitions o)) as [e | [n names]].
  { exists (printed (input_loads o) ++ printed (base_case o li)
            ++ printed (contingency_definitions o))%list.
    split; [repeat (apply Forall_app; split); auto |]. left.
    rewrite app_nil_r. eauto. }
  cbn [fst snd]. rewrite result_bind, printed_bind.
  destruct (result (post_contingency o li n names)) as [e | []].
  { exists (printed (input_loads o) ++ printed (base_case o li)
            ++ printed (contingency_definitions o)
            ++ printed (post_contingency o li n names))%list.
    split; [repeat (apply Forall_app; split); auto |]. left.
    rewrite app_nil_r. eauto. }
  exists (printed (input_loads o) ++ printed (base_case o li)
          ++ printed (contingency_definitions o)
          ++ printed (post_contingency o li n names))%list.
  split; [repeat (apply Forall_app; split); auto |]. right.
  rewrite result_bind, printed_bind.
  destruct (result (redispatch o)) as [e | []];
    cbn [printed result trace fst snd print lines];
    repeat rewrite <- app_assoc; split; reflexivity.
Qed.

Lemma input_loads_no_table (f : obj) : all_lines no_table (input_loads f).
Proof.
  unfold input_loads. all_lines_tac; (split; [exact (fun x => x) | discriminate]).
Qed.

Lemma base_case_no_table (f : obj) (li : dataset) :
  all_lines no_table (base_case f li).
Proof.
  unfold base_case. all_lines_tac; (split; [exact (fun x => x) | discriminate]).
Qed.

Lemma contingency_definitions_no_table (f : obj) :
  all_lines no_table (contingency_definitions f).
Proof.
  unfold contingency_definitions.
  all_lines_tac; (split; [exact (fun x => x) | discriminate]).
Qed.

Lemma post_contingency_no_table (f : obj) (li : dataset) (n : attr)
    (names : list cell) :
  all_lines no_table (post_contingency f li n names).
Proof.
  unfold post_contingency, result_row.
  all_lines_tac; (split; [exact (fun x => x) | discriminate]).
Qed.

(** The redispatch of two generator tables whose lengths do not
    broadcast. *)
Lemma redispatch_mismatch (f : node) (nb : nat) (base : list (list float))
    (nc : nat) (cont : list (list float)) :
  resolve f "base_solution/opf/nodes/generator"
    = Some (Dataset (Table nb base)) ->
  (1 <= nb)%nat ->
  resolve f "post_contingency/contingency_000001/opf/nodes/generator"
    = Some (Dataset (Table nc cont)) ->
  (1 <= nc)%nat ->
  List.length cont <> List.length base ->
  List.length cont <> 1%nat -> List.length base <> 1%nat ->
  printed (redispatch (root f)) = [Dashes; RedispatchTitle; DashRule] /\
  result (redispatch (root f)) = inl ValueError.
Proof.
  intros Hbase Hnb Hcont Hnc Hne Hc1 Hb1.
  assert (Hsub : broadcast_sub (col 0 cont) (col 0 base) = inl ValueError).
  { unfold broadcast_sub, col. rewrite !length_map.
    apply Nat.eqb_neq in Hne, Hc1, Hb1. now rewrite Hne, Hc1, Hb1. }
  unfold redispatch.
  repeat (rewrite ?printed_bind, ?result_bind, ?printed_getitem,
            ?result_getitem, ?printed_lift, ?result_lift;
          cbn [root name target join app is_scalar];
          rewrite ?Hbase, ?Hcont;
          unfold slice_all;
          cbn [target result printed trace fst snd ret print lines app is_scalar];
          rewrite ?column_table by lia;
          rewrite ?Hsub;
          cbv beta iota).
  split; reflexivity.
Qed.

(** X16. When the generator tables of the base case and of contingency 1
    have different numbers of rows, neither of them 1, their difference
    does not exist: the summary raises (ValueError from the redispatch,
    if nothing raised before) and prints neither a redispatch table nor
    the notice. *)
Theorem redispatch_shape_mismatch (fs : filesystem) (path : string)
    (f : node) (nb : nat) (base : list (list float)) (nc : nat)
    (cont : list (list float)) :
  fs path = Some f ->
  resolve f "base_solution/opf/nodes/generator"
    = Some (Dataset (Table nb base)) ->
  (1 <= nb)%nat ->
  resolve f "post_contingency/contingency_000001/opf/nodes/generator"
    = Some (Dataset (Table nc cont)) ->
  (1 <= nc)%nat ->
  List.length cont <> List.length base ->
  List.length cont <> 1%nat -> List.length base <> 1%nat ->
  result (redispatch (root f)) = inl ValueError /\
  (exists e, result (read_scenario fs path) = inl e) /\
  (forall l, In l (printed (read_scenario fs path)) -> no_table l).
Proof.
  intros Hf Hbase Hnb Hcont Hnc Hne Hc1 Hb1.
  destruct (redispatch_mismatch f nb base nc cont
              Hbase Hnb Hcont Hnc Hne Hc1 Hb1) as [Hp Hr].
  split; [exact Hr |].
  rewrite (read_scenario_result fs path f Hf),
    (read_scenario_printed fs path f Hf).
  destruct (summarize_split no_table (root f)
              (input_loads_no_table (root f))
              (base_case_no_table (root f))
              (contingency_definitions_no_table (root f))
              (post_contingency_no_table (root f)))
    as (pre & Hpre & [[-> He] | [-> ->]]).
  - split; [exact He |]. rewrite Forall_forall in Hpre.
    intros l [<- | [<- | [<- | Hl]]];
      try (split; [exact (fun x => x) | discriminate]).
    now apply Hpre.
  - rewrite Hr, Hp. split; [eauto |]. rewrite Forall_forall in Hpre.
    intros l [<- | [<- | [<- | Hl]]];
      try (split; [exact (fun x => x) | discriminate]).
    apply in_app_or in Hl. destruct Hl as [Hl | Hl]; [now apply Hpre |].
    simpl in Hl. destruct Hl as [<- | [<- | [<- | []]]];
      (split; [exact (fun x => x) | discriminate]).
Qed.

Lemma redispatch_shape_mismatch_witness :
  result (redispatch (root generator_mismatch)) = inl ValueError.
Proof.
  refine (proj1 (redispatch_shape_mismatch
            (Sample.disk "s.h5" generator_mismatch) "s.h5"
            generator_mismatch 1 [[30]; [10]]%float 1 [[30]; [10]; [5]]%float
            eq_refl eq_refl _ eq_refl _ _ _ _));
    first [lia | discriminate].
Defined.

(** ** What a summary reads *)

Section AllAccesses.

Variable P : access -> Prop.

Lemma all_accesses_ret {A : Type} (a : A) : all_accesses P (ret a).
Proof. constructor. Qed.

Lemma all_accesses_raise {A : Type} (e : exn) : all_accesses P (@raise A e).
Proof. constructor. Qed.

Lemma all_accesses_print (l : line) : all_accesses P (print l).
Proof. constructor. Qed.

Lemma all_accesses_lift {A : Type} (r : exn + A) : all_accesses P (lift r).
Proof. destruct r; constructor. Qed.

Lemma all_accesses_bind {A B : Type} (m : M A) (k : A -> M B) :
  all_accesses P m ->
  (forall a, result m = inr a -> all_accesses P (k a)) ->
  all_accesses P (bind m k).
Proof.
  unfold all_accesses. intros Hm Hk. rewrite accessed_bind.
  apply Forall_app. split; [exact Hm |].
  destruct (result m) as [e | a]; [constructor | now apply Hk].
Qed.

Lemma all_accesses_for {A : Type} (xs : list A) (body : A -> M unit) :
  (forall x, In x xs -> all_accesses P (body x)) ->
  all_accesses P (for_ xs body).
Proof.
  induction xs as [| x xs IH]; intros H; cbn [for_].
  - apply all_accesses_ret.
  - apply all_accesses_bind; [apply H; now left |].
    intros _ _. apply IH. intros y Hy. apply H. now right.
Qed.

Lemma all_accesses_getitem (o : obj) (p : string) :
  P (Obj (join (name o) p)) -> all_accesses P (getitem o p).
Proof.
  intros H. unfold all_accesses. rewrite accessed_getitem.
  repeat constructor. exact H.
Qed.

Lemma all_accesses_getattr (o : obj) (key : string) :
  P (Attr (name o) key) -> all_accesses P (getattr o key).
Proof.
  intros H. unfold all_accesses. rewrite accessed_getattr.
  repeat constructor. exact H.
Qed.

Lemma all_accesses_slice_all (o : obj) : all_accesses P (slice_all o).
Proof.
  unfold slice_all. destruct (target o) as [d | |]; try constructor.
  destruct (is_scalar d); constructor.
Qed.

Lemma all_accesses_slice_column (c : nat) (o : obj) :
  all_accesses P (slice_column c o).
Proof.
  unfold slice_column. apply all_accesses_bind;
    [apply all_accesses_slice_all |].
  intros. apply all_accesses_lift.
Qed.

End AllAccesses.

(** Decompose a goal [all_accesses P m] along the structure of [m]; what
    remains are the obligations [P a] of the accesses [m] makes, with the
    values returned and the tests passed on the way as hypotheses. *)
Ltac all_accesses_step :=
  match goal with
  | |- all_accesses _ (bind _ _) => apply all_accesses_bind; [| intros ? ?]
  | |- all_accesses _ (for_ _ _) => apply all_accesses_for; intros ? ?
  | |- all_accesses _ (print _) => apply all_accesses_print
  | |- all_accesses _ (ret _) => apply all_accesses_ret
  | |- all_accesses _ (raise _) => apply all_accesses_raise
  | |- all_accesses _ (lift _) => apply all_accesses_lift
  | |- all_accesses _ (getitem _ _) => apply all_accesses_getitem
  | |- all_accesses _ (getattr _ _) => apply all_accesses_getattr
  | |- all_accesses _ (slice_all _) => apply all_accesses_slice_all
  | |- all_accesses _ (slice_column _ _) => apply all_accesses_slice_column
  | |- all_accesses _ (if ?b then _ else _) => destruct b eqn:?
  | |- all_accesses _ (match ?x with _ => _ end) => destruct x
  end.

Lemma getattr_returns (o : obj) (key : string) (v : attr) :
  result (getattr o key) = inr v -> assoc key (attrs_of (target o)) = Some v.
Proof.
  rewrite result_getattr.
  destruct (assoc key (attrs_of (target o))); [| discriminate].
  now intros [= <-].
Qed.

Lemma join_contingency_path (i : nat) (s : string) :
  join (contingency_path i) s = contingency_path i ++ "/" ++ s.
Proof. reflexivity. Qed.

(** Every access of a summary is one of the schema. *)
Lemma summarize_accesses (f : node) :
  all_accesses (schema_access f) (summarize (root f)).
Proof.
  unfold summarize, input_loads, base_case, contingency_definitions,
    post_contingency, result_row, redispatch, redispatch_table.
  repeat all_accesses_step.
  all: try (apply sa_required; simpl; tauto).
  all: repeat match goal with
       | H : result (getitem _ _) = inr _ |- _ =>
           apply getitem_returns in H; destruct H as [? ?]
       | H : result (getattr _ _) = inr _ |- _ => apply getattr_returns in H
       | H : result (bind _ _) = inr _ |- _ => clear H
       end.
  all: cbn [root name target is_scalar] in *.
  all: repeat match goal with
       | H : name ?o = _ |- _ => rewrite H in *; clear H
       end.
  all: cbn [join] in *; rewrite ?join_contingency_path in *.
  all: try solve [constructor].
  all: match goal with
       | Hg : resolve ?r (contingency_path ?i) = Some (target ?g),
         Hpf : assoc "pf_converged" (attrs_of (target ?g)) = Some ?pf,
         Hopf : assoc "opf_converged" (attrs_of (target ?g)) = Some ?opf,
         Hb : attr_eq1 ?opf = true |- _ =>
           assert (Hflags : flags r i = Some (pf, opf))
             by (unfold flags; now rewrite Hg, Hpf, Hopf)
       end.
  - eapply sa_served; eassumption.
  - eapply sa_solution; eassumption.
  - eapply sa_objective; eassumption.
Qed.

(** *** Paths below a result group *)

Lemma prefix_app_l (p x y : string) :
  String.prefix (p ++ x) (p ++ y) = String.prefix x y.
Proof.
  induction p as [| c p IH]; cbn [String.prefix append]; [reflexivity |].
  destruct (ascii_dec c c) as [_ | H]; [exact IH | now elim H].
Qed.

Lemma append_assoc (a b c : string) : (a ++ b) ++ c = a ++ (b ++ c).
Proof. induction a as [| x a IH]; simpl; [reflexivity | now rewrite IH]. Qed.

Lemma count_slash_cons (c : ascii) (s : string) :
  count_slash (String c s) = 0%nat -> c <> "/"%char /\ count_slash s = 0%nat.
Proof.
  cbn [count_slash]. destruct (Ascii.eqb_spec c "/") as [-> | Hc];
    [discriminate | auto].
Qed.

(** Two names without slash, each followed by a slash: one path is a
    prefix of the other only if the names are the same. *)
Lemma prefix_names (a : string) :
  forall b ra rb : string,
    count_slash a = 0%nat -> count_slash b = 0%nat ->
    String.prefix (a ++ String "/" ra) (b ++ String "/" rb) = true ->
    a = b.
Proof.
  induction a as [| c a IH]; intros [| d b] ra rb Ha Hb;
    cbn [String.prefix append].
  - reflexivity.
  - apply count_slash_cons in Hb. destruct Hb as [Hd _].
    destruct (ascii_dec "/" d) as [<- | _]; [now elim Hd | discriminate].
  - apply count_slash_cons in Ha. destruct Ha as [Hc _].
    destruct (ascii_dec c "/") as [-> | _]; [now elim Hc | discriminate].
  - apply count_slash_cons in Ha, Hb. destruct Ha as [_ Ha], Hb as [_ Hb].
    destruct (ascii_dec c d) as [<- | _]; [| discriminate].
    intros H. f_equal. now apply (IH b ra rb).
Qed.

(** A name followed by a slash is no prefix of a name without slash. *)
Lemma prefix_name_end (a : string) :
  forall b ra : string,
    count_slash b = 0%nat ->
    String.prefix (a ++ String "/" ra) b = false.
Proof.
  induction a as [| c a IH]; intros [| d b] ra Hb;
    cbn [String.prefix append]; try reflexivity.
  - apply count_slash_cons in Hb. destruct Hb as [Hd _].
    destruct (ascii_dec "/" d) as [<- | _]; [now elim Hd | reflexivity].
  - apply count_slash_cons in Hb. destruct Hb as [_ Hb].
    destruct (ascii_dec c d) as [<- | _]; [| reflexivity].
    now apply IH.
Qed.

Lemma count_slash_digits (d : Decimal.uint) :
  count_slash (NilEmpty.string_of_uint d) = 0%nat.
Proof. induction d; simpl; auto. Qed.

Lemma count_slash_zfill6 (n : nat) : count_slash (Fmt.zfill6 n) = 0%nat.
Proof.
  unfold Fmt.zfill6. cbv zeta. rewrite count_slash_app.
  assert (Hz : forall k, count_slash (Fmt.repeat_char "0" k) = 0%nat)
    by (induction k; simpl; auto).
  rewrite Hz. unfold Fmt.str_nat, NilZero.string_of_uint.
  destruct (Nat.to_uint n) eqn:E; try reflexivity;
    rewrite <- E; apply count_slash_digits.
Qed.

Lemma zfill6_inj (n m : nat) : Fmt.zfill6 n = Fmt.zfill6 m -> n = m.
Proof.
  intros H. pose proof (zfill6_decode n) as Hn.
  rewrite H, zfill6_decode in Hn. now injection Hn.
Qed.

(** Below the solution of contingency [i + 1] lie only paths of that
    contingency. *)
Lemma prefix_solution (i j : nat) (rest : string) :
  String.prefix (contingency_path i ++ "/opf")
    (contingency_path j ++ String "/" rest) = true ->
  i = j.
Proof.
  unfold contingency_path. rewrite !append_assoc, prefix_app_l.
  intros H. apply prefix_names in H; try apply count_slash_zfill6.
  apply zfill6_inj in H. lia.
Qed.

Lemma prefix_solution_group (i j : nat) :
  String.prefix (contingency_path i ++ "/opf") (contingency_path j) = false.
Proof.
  unfold contingency_path. rewrite !append_assoc, prefix_app_l.
  apply prefix_name_end, count_slash_zfill6.
Qed.

Lemma read_scenario_accessed (fs : filesystem) (path : string) (f : node) :
  fs path = Some f ->
  accessed (read_scenario fs path) = accessed (summarize (root f)).
Proof.
  intros Hf. unfold read_scenario, open_file. rewrite Hf.
  repeat rewrite accessed_bind. reflexivity.
Qed.

(** X17. A summary reads nothing outside the schema: every access goes
    to one of the paths every summary opens, to the count, to the result
    group of a contingency or one of its two flags, or, only for a
    contingency whose stored [opf_converged] flag is 1, to its served
    loads, its [opf] group or the objective on it. *)
Theorem accesses_within_schema (fs : filesystem) (path : string) (f : node)
    (a : access) :
  fs path = Some f ->
  In a (accessed (read_scenario fs path)) ->
  schema_access f a.
Proof.
  intros Hf. rewrite (read_scenario_accessed fs path f Hf).
  pose proof (summarize_accesses f) as H.
  unfold all_accesses in H. rewrite Forall_forall in H. apply H.
Qed.

Lemma accesses_within_schema_witness :
  schema_access Sample.valid (Attr "contingencies" "count").
Proof.
  apply (accesses_within_schema (Sample.disk "s.h5" Sample.valid) "s.h5"
           Sample.valid (Attr "contingencies" "count") eq_refl).
  vm_compute. tauto.
Defined.

(** X3. The solution of a contingency whose optimisation did not
    converge is never read, the first contingency excepted (the
    redispatch reads that one whatever its flag): for every other
    contingency with [opf_converged] not 1, no access of the whole
    summary goes below its [opf] sub-tree. *)
Theorem failed_solution_untouched (fs : filesystem) (path : string)
    (f : node) (i : nat) (pf opf : attr) :
  fs path = Some f ->
  flags f i = Some (pf, opf) ->
  attr_eq1 opf = false ->
  i <> 0%nat ->
  untouched (contingency_path i ++ "/opf")
    (accessed (read_scenario fs path)) = true.
Proof.
  intros Hf Hflags Hfalse Hi.
  rewrite (read_scenario_accessed fs path f Hf).
  pose proof (summarize_accesses f) as H.
  unfold all_accesses in H. rewrite Forall_forall in H.
  unfold untouched. apply forallb_forall. intros a Ha.
  apply H in Ha. apply negb_true_iff.
  assert (Hsame : forall j pf' opf' rest,
            flags f j = Some (pf', opf') -> attr_eq1 opf' = true ->
            String.prefix (contingency_path i ++ "/opf")
              (contingency_path j ++ String "/" rest) = false).
  { intros j pf' opf' rest Hj Ht.
    destruct (String.prefix _ _) eqn:E; [| reflexivity].
    apply prefix_solution in E. subst j.
    rewrite Hflags in Hj. injection Hj as <- <-. congruence. }
  destruct Ha as [p Hp | | j | j | j | j pf' opf' Hj Ht | j pf' opf' Hj Ht
                 | j pf' opf' Hj Ht]; cbn [access_path].
  - simpl in Hp.
    destruct Hp as [<- | [<- | [<- | [<- | [<- | [<- | [<- | [<- | [<- | []]]]]]]]]];
      try reflexivity.
    destruct (String.prefix _ _) eqn:E; [| reflexivity].
    change "post_contingency/contingency_000001/opf/nodes/generator"
      with (contingency_path 0 ++ String "/" "opf/nodes/generator") in E.
    apply prefix_solution in E. now elim Hi.
  - reflexivity.
  - apply prefix_solution_group.
  - apply prefix_solution_group.
  - apply prefix_solution_group.
  - now apply (Hsame j pf' opf' "opf/nodes/load").
  - now apply (Hsame j pf' opf' "opf").
  - now apply (Hsame j pf' opf' "opf").
Qed.

Lemma failed_solution_untouched_witness :
  untouched (contingency_path 2 ++ "/opf")
    (accessed (read_scenario (Sample.disk "s.h5" Sample.five) "s.h5"))
  = true.
Proof.
  refine (failed_solution_untouched (Sample.disk "s.h5" Sample.five) "s.h5"
            Sample.five 2 (AInt 1) (AInt 0) eq_refl eq_refl eq_refl _).
  discriminate.
Defined.

(** ** A file that does not exist *)

(** When the file does not exist every component raises
    FileNotFoundError as it opens it, but not at the same point: the
    walker and the summarizer have printed their three-line banner by
    then, the path reader has printed nothing; none has touched a
    container. *)
Lemma missing_file_output (fs : filesystem) (path p : string) :
  fs path = None ->
  (print_structure fs path
   = ([Print Rule; Print (StructureTitle path); Print Rule],
      inl (FileNotFoundError path))) /\
  (read_scenario fs path
   = ([Print Rule; Print (Reading path); Print Rule],
      inl (FileNotFoundError path))) /\
  (read_element fs path p = ([], inl (FileNotFoundError path))).
Proof.
  intros Hf. unfold print_structure, read_scenario, read_element, open_file.
  rewrite Hf. repeat split.
Qed.

Lemma missing_file_output_witness :
  read_element (fun _ => None) "s.h5" "grid" =
  ([], inl (FileNotFoundError "s.h5")).
Proof.
  apply (missing_file_output (fun _ => None) "s.h5" "grid" eq_refl).
Defined.
